(** * Cache warmer: a shallow embedding of [src/index.js]

    The script discovers the URLs of a site through its sitemap index,
    requests each of them through a proxy, reads the cache headers of the
    answers, purges the CDN entry of the pages that were cold at the
    LiteSpeed layer and posts a run log to an Apps Script endpoint.

    The embedding follows the source function by function.  JavaScript
    values are an inductive type, the logger is a record whose rows are
    lists of values updated by index, and the asynchronous code is written
    in a small free monad whose operations are the places where the source
    talks to the outside (HTTP, the clock, timers, the console) or to the
    logger shared by all tasks.  [Promise.all] is the interleaving of its
    tasks, every choice being taken by the world. *)

From Stdlib Require Import ZArith Lia Ascii String.
From stdpp Require Import base option list strings pretty gmap.

Set Warnings "-register-all".

Open Scope string_scope.
Open Scope list_scope.
Open Scope Z_scope.

(** ** JavaScript values *)

(** Numbers are the integers the program handles (status codes,
    milliseconds, lengths, flags); objects are association lists read by
    their first matching key. *)
Inductive Js : Type :=
| JUndefined
| JNull
| JBool (b : bool)
| JNum (n : Z)
| JStr (s : string)
| JArr (xs : list Js)
| JObj (fields : list (string * Js)).

(** ToBoolean: what [Boolean(x)], [!x], [x || y] and [if (x)] test. *)
Definition truthy (v : Js) : bool :=
  match v with
  | JUndefined | JNull => false
  | JBool b => b
  | JNum n => negb (n =? 0)
  | JStr s => negb (String.eqb s "")
  | JArr _ | JObj _ => true
  end.

Fixpoint assoc (name : string) (fields : list (string * Js)) : option Js :=
  match fields with
  | [] => None
  | (k, v) :: rest => if String.eqb k name then Some v else assoc name rest
  end.

(** [x?.name] for the property names the program reads ([sitemapindex],
    [sitemap], [urlset], [url], [loc], [success]): none of them is a
    built-in property of a string, a number, a boolean or an array. *)
Definition opt_prop (x : Js) (name : string) : Js :=
  match x with
  | JObj fields => default JUndefined (assoc name fields)
  | _ => JUndefined
  end.

(** [Array.isArray(list) ? list : [list]] *)
Definition as_array (v : Js) : list Js :=
  match v with
  | JArr xs => xs
  | _ => [v]
  end.

(** [xs.filter(Boolean)] *)
Definition filter_Boolean (xs : list Js) : list Js :=
  List.filter truthy xs.

(** [r[i]]: a cell past the end reads as [undefined]. *)
Definition js_get (r : list Js) (i : nat) : Js :=
  default JUndefined (r !! i).

(** [r[i] = v] on an array: in range the cell is replaced, past the end
    the array grows and the cells in between are holes, which read as
    [undefined]. *)
Definition js_set_index (r : list Js) (i : nat) (v : Js) : list Js :=
  if decide (i < length r)%nat then <[i:=v]> r
  else r ++ replicate (i - length r) JUndefined ++ [v].

(** ** Strings *)

Definition is_upper (c : ascii) : bool :=
  let n := nat_of_ascii c in (65 <=? n)%nat && (n <=? 90)%nat.

Definition lower_char (c : ascii) : ascii :=
  if is_upper c then ascii_of_nat (nat_of_ascii c + 32) else c.

(** [s.toLowerCase()] on the letters A to Z.  The bytes of other
    characters are kept; no character outside A to Z lowers to one of the
    letters of [hit], the only string the result is compared with. *)
Fixpoint toLowerCase (s : string) : string :=
  match s with
  | EmptyString => EmptyString
  | String c rest => String (lower_char c) (toLowerCase rest)
  end.

Definition hyphen : ascii := "-"%char.

(** [s.includes("-")] *)
Fixpoint includes_hyphen (s : string) : bool :=
  match s with
  | EmptyString => false
  | String c rest => if Ascii.eqb c hyphen then true else includes_hyphen rest
  end.

(** [s.split("-")]: the segments between all the hyphens of [s]; a string
    without hyphen is its own single segment. *)
Fixpoint split_hyphen (s : string) : list string :=
  match s with
  | EmptyString => [EmptyString]
  | String c rest =>
      if Ascii.eqb c hyphen then EmptyString :: split_hyphen rest
      else match split_hyphen rest with
           | [] => [String c EmptyString]
           | seg :: segs => String c seg :: segs
           end
  end.

(** [xs[i]] on an array of strings *)
Definition js_index (xs : list string) (i : nat) : Js :=
  match xs !! i with
  | Some s => JStr s
  | None => JUndefined
  end.

(** ** Dates *)

(** A [Date] is its time value, the milliseconds since the epoch. *)
Definition msPerDay : Z := 86400000.

(** Year, month (1 to 12) and day of the month of a day number counted
    from 1970-01-01 in the proleptic Gregorian calendar. *)
Definition civil_of_days (days : Z) : Z * Z * Z :=
  let z := days + 719468 in
  let era := z / 146097 in
  let doe := z - era * 146097 in
  let yoe := (doe - doe / 1460 + doe / 36524 - doe / 146096) / 365 in
  let doy := doe - (365 * yoe + yoe / 4 - yoe / 100) in
  let mp := (5 * doy + 2) / 153 in
  let d := doy - (153 * mp + 2) / 5 + 1 in
  let m := if mp <? 10 then mp + 3 else mp - 9 in
  let y := yoe + era * 400 + (if m <=? 2 then 1 else 0) in
  (y, m, d).

Definition getUTCFullYear (t : Z) : Z := (civil_of_days (t / msPerDay)).1.1.
(** zero-based, as in JavaScript *)
Definition getUTCMonth (t : Z) : Z := (civil_of_days (t / msPerDay)).1.2 - 1.
Definition getUTCDate (t : Z) : Z := (civil_of_days (t / msPerDay)).2.
Definition getUTCHours (t : Z) : Z := (t mod msPerDay) / 3600000.
Definition getUTCMinutes (t : Z) : Z := (t mod 3600000) / 60000.
Definition getUTCSeconds (t : Z) : Z := (t mod 60000) / 1000.
Definition getUTCMilliseconds (t : Z) : Z := t mod 1000.

(** [String(n).padStart(width, "0")] for an integer [n] *)
Definition padStart0 (width : nat) (n : Z) : string :=
  let s := pretty n in
  String.concat "" (replicate (width - String.length s) "0") +:+ s.

(** [d.toISOString()]: four digits for the years 0 to 9999, a sign and six
    digits for the others. *)
Definition toISOString (t : Z) : string :=
  let y := getUTCFullYear t in
  let year :=
    if (0 <=? y) && (y <=? 9999) then padStart0 4 y
    else (if y <? 0 then "-" else "+") +:+ padStart0 6 (Z.abs y) in
  year +:+ "-" +:+ padStart0 2 (getUTCMonth t + 1) +:+ "-" +:+
  padStart0 2 (getUTCDate t) +:+ "T" +:+ padStart0 2 (getUTCHours t) +:+ ":" +:+
  padStart0 2 (getUTCMinutes t) +:+ ":" +:+ padStart0 2 (getUTCSeconds t) +:+
  "." +:+ padStart0 3 (getUTCMilliseconds t) +:+ "Z".

(** The time values of [Date] end 100 000 000 days from the epoch on
    either side. *)
Definition maxTime : Z := 8640000000000000.

(** The time values a [Date] can hold: [new Date(v)] is an invalid date
    for any other [v], and so is a date built from an invalid one. *)
Definition valid_time (t : Z) : bool := (- maxTime <=? t) && (t <=? maxTime).

(** [makeSheetNameForRun(date)]: the run's start in UTC+8.  When [date] or
    the date eight hours later is invalid every getter of [local] returns
    [NaN], which [String] and [padStart] leave as the three letters. *)
Definition makeSheetNameForRun (date : Z) : string :=
  let pad := padStart0 2 in
  let local := date + 8 * 3600 * 1000 in
  if valid_time date && valid_time local then
    pretty (getUTCFullYear local) +:+ "-" +:+ pad (getUTCMonth local + 1) +:+ "-" +:+
    pad (getUTCDate local) +:+ "_" +:+ pad (getUTCHours local) +:+ "-" +:+
    pad (getUTCMinutes local) +:+ "-" +:+ pad (getUTCSeconds local) +:+ "_WITA"
  else "NaN-NaN-NaN_NaN-NaN-NaN_WITA".

(** ** Thrown values *)

(** What the program reads of an error object. *)
Record Err := {
  isAxiosError : bool;
  err_code : option string;
  err_message : option string;
}.

(** A thrown value: [null] (the initial [lastError]) or an error. *)
Inductive Thrown : Type :=
| TNull
| TErr (e : Err).

(** ** Configuration *)

(** What [obj[key]] reads on one of the object literals of the
    configuration: the string or the [undefined] the literal holds under a
    key of its own, the member of [Object.prototype] of that name under a
    key the literal does not have, a function or an object, and
    [undefined] under any other key. *)
Inductive Member : Type :=
| MUndefined
| MStr (s : string)
| MInherited (name : string).

(** ToBoolean of such a value: functions and objects are true. *)
Definition member_truthy (m : Member) : bool :=
  match m with
  | MUndefined => false
  | MStr s => negb (String.eqb s "")
  | MInherited _ => true
  end.

(** The property names every object literal inherits. *)
Definition Object_prototype : list string :=
  ["constructor"; "__defineGetter__"; "__defineSetter__"; "hasOwnProperty";
   "__lookupGetter__"; "__lookupSetter__"; "isPrototypeOf";
   "propertyIsEnumerable"; "toString"; "valueOf"; "__proto__";
   "toLocaleString"].

(** The value an object literal holds under a key of its own. *)
Fixpoint own_property (key : string) (literal : list (string * option string))
  : option (option string) :=
  match literal with
  | [] => None
  | (k, v) :: rest =>
      if String.eqb k key then Some v else own_property key rest
  end.

(** [literal[key]] *)
Definition member (literal : list (string * option string)) (key : string)
  : Member :=
  match own_property key literal with
  | Some (Some s) => MStr s
  | Some None => MUndefined
  | None =>
      if existsb (String.eqb key) Object_prototype then MInherited key
      else MUndefined
  end.

(** What the script is started with: the variables of [process.env], each
    absent or a string, and the installed proxy agent library, of which
    the script calls the constructor only: for each value it can be given,
    [new HttpsProxyAgent(proxy)] either returns an agent or throws. *)
Record Env := {
  APPS_SCRIPT_URL : option string;
  BRD_PROXY_ID : option string;
  CLOUDFLARE_ZONE_ID : option string;
  CLOUDFLARE_API_TOKEN : option string;
  HttpsProxyAgent_throws : Member -> option Thrown;
}.

(** Truth value of an environment variable: set and not empty. *)
Definition env_truthy (v : option string) : bool :=
  match v with
  | Some s => negb (String.eqb s "")
  | None => false
  end.

(** [Object.entries(DOMAINS_MAP)], in the order of the literal *)
Definition DOMAINS_MAP : list (string * string) :=
  [("id", "https://divemasterlembongan.com")].

(** The literal [PROXIES]: its one key holds a variable of the
    environment, which can be [undefined]. *)
Definition PROXIES (env : Env) : list (string * option string) :=
  [("id", BRD_PROXY_ID env)].

Definition USER_AGENTS : list (string * option string) :=
  [("id", Some "DiveMasterLembongan-CacheWarmer-ID/1.0")].

(** ** Requests and responses *)

(** The configuration object handed to [axios.get]: the header is what
    [USER_AGENTS[country]] reads, the agent is known by the value it was
    built from. *)
Record AxiosCfg := {
  cfg_userAgent : Member;
  cfg_timeout : Z;
  cfg_httpsAgent : option Member;
}.

(** The configuration object handed to [axios.post]; both call sites set
    the JSON content type. *)
Record PostCfg := {
  post_timeout : option Z;
  post_authorization : option string;
}.

(** An axios response: header values are strings, keyed by their
    lower-case name. *)
Record Response := {
  res_status : Z;
  res_headers : gmap string string;
  res_data : Js;
}.

(** [buildAxiosCfg(country, extra)]; the only key [extra] carries is
    [timeout].  It throws what the constructor of the agent throws, which
    is called when [PROXIES[country]] is true: for a proxy string that is
    not empty and for the name of a member of [Object.prototype]. *)
Definition buildAxiosCfg (env : Env) (country : string) (extra : option Z)
  : Thrown + AxiosCfg :=
  let proxy := member (PROXIES env) country in
  let cfg agent :=
    {| cfg_userAgent := member USER_AGENTS country;
       cfg_timeout := default 30000 extra;
       cfg_httpsAgent := agent |} in
  if member_truthy proxy then
    match HttpsProxyAgent_throws env proxy with
    | Some e => inl e
    | None => inr (cfg (Some proxy))
    end
  else inr (cfg None).

(** ** The run logger *)

Record AppsScriptLogger := {
  rows : list (list Js);
  runId : string;
  startedAt : string;
  finishedAt : Js;
  sheetName : string;
}.

(** The object [log] destructures; a key that is left out is
    [JUndefined]. *)
Record LogArgs := {
  country : Js;
  url : Js;
  status : Js;
  cfCache : Js;
  lsCache : Js;
  cfRay : Js;
  responseMs : Js;
  error : Js;
  message : Js;
}.

(** A destructuring default applies to [undefined] only. *)
Definition dflt (d v : Js) : Js :=
  match v with
  | JUndefined => d
  | _ => v
  end.

(** Index of the finish timestamp in a row. *)
Definition FINISHED : nat := 2.
(** Index of the country in a row. *)
Definition COUNTRY : nat := 3.


(** Index of the error flag in a row. *)
Definition ERROR : nat := 10.

(** Index of the message in a row. *)
Definition MESSAGE : nat := 11.

(** The array [log] pushes. *)
Definition row_of (a : LogArgs) (this : AppsScriptLogger) : list Js :=
  [ JStr (runId this);
    JStr (startedAt this);
    finishedAt this;
    dflt (JStr "") (country a);
    dflt (JStr "") (url a);
    dflt (JStr "") (status a);
    dflt (JStr "") (cfCache a);
    dflt (JStr "") (lsCache a);
    dflt (JStr "") (cfRay a);
    match dflt (JStr "") (responseMs a) with
    | JNum n => JNum n
    | _ => JStr ""
    end;
    if truthy (dflt (JNum 0) (error a)) then JNum 1 else JNum 0;
    dflt (JStr "") (message a) ].

(** [log({...})] *)
Definition log (a : LogArgs) (this : AppsScriptLogger) : AppsScriptLogger :=
  {| rows := rows this ++ [row_of a this];
     runId := runId this;
     startedAt := startedAt this;
     finishedAt := finishedAt this;
     sheetName := sheetName this |}.

(** The two assignments of [setFinished()], [now] being the time value of
    its [new Date()]. *)
Definition setFinished_at (now : Z) (this : AppsScriptLogger)
  : AppsScriptLogger :=
  let fin := JStr (toISOString now) in
  {| rows := List.map (fun r => js_set_index r FINISHED fin) (rows this);
     runId := runId this;
     startedAt := startedAt this;
     finishedAt := fin;
     sheetName := sheetName this |}.

(** ** Asynchronous code *)

Inductive Level : Type := LLog | LWarn.

(** The two places that call [sleep]: the backoff of [retryableGet] and
    the pause that ends an iteration of the loop of [warmUrls]. *)
Inductive SleepSite : Type := Backoff | InterBatch.

(** The operations of a task, indexed by the type of their answer.
    [PurgeCalled] records an entry into [purgeCloudflareCache]; [Pick] is
    the scheduler choosing between two tasks that can both go on.  Console
    output is recorded by its level and the fixed text of the message. *)
Inductive Op : Type -> Type :=
| AxiosGet (u : Js) (cfg : AxiosCfg) : Op (Thrown + Response)
| AxiosPost (u : string) (body : Js) (cfg : PostCfg) : Op (Thrown + Response)
| ParseString (xml : Js) : Op (Thrown + Js)
| Sleep (site : SleepSite) (ms : Z) : Op unit
| DateNow : Op Z
| RandomId : Op string
| Console (lvl : Level) (text : string) : Op unit
| LoggerGet : Op AppsScriptLogger
| LoggerSet (f : AppsScriptLogger -> AppsScriptLogger) : Op unit
| PurgeCalled (u : Js) : Op unit
| Pick : Op bool.

Inductive Task (A : Type) : Type :=
| Ret (a : A)
| Act {X : Type} (op : Op X) (k : X -> Task A).

Arguments Ret {A} a.
Arguments Act {A X} op k.

Fixpoint bind {A B} (t : Task A) (f : A -> Task B) : Task B :=
  match t with
  | Ret a => f a
  | Act op k => Act op (fun x => bind (k x) f)
  end.

Definition act {X} (op : Op X) : Task X := Act op Ret.

(** A task that may throw returns the thrown value on the left. *)
Definition bindE {A B} (t : Task (Thrown + A)) (f : A -> Task (Thrown + B))
  : Task (Thrown + B) :=
  bind t (fun r => match r with
                   | inl e => Ret (inl e)
                   | inr a => f a
                   end).

Declare Scope task_scope.
Delimit Scope task_scope with task.
Notation "x <- t ;; k" := (bind t (fun x => k))
  (at level 100, t at next level, right associativity) : task_scope.
Notation "t ;; k" := (bind t (fun _ => k))
  (at level 100, right associativity) : task_scope.
Notation "x <-! t ;; k" := (bindE t (fun x => k))
  (at level 100, t at next level, right associativity) : task_scope.
Open Scope task_scope.

Definition throw {A} (e : Thrown) : Task (Thrown + A) := Ret (inl e).
Definition ok {A} (a : A) : Task (Thrown + A) := Ret (inr a).

(** [try { body } catch (e) { handler }] *)
Definition try_catch {A} (body : Task (Thrown + A))
    (handler : Thrown -> Task (Thrown + A)) : Task (Thrown + A) :=
  r <- body ;;
  match r with
  | inl e => handler e
  | inr a => ok a
  end.

(** [try { body } finally { fin }] *)
Definition try_finally {A} (body : Task (Thrown + A))
    (fin : Task (Thrown + unit)) : Task (Thrown + A) :=
  r <- body ;;
  f <- fin ;;
  match f with
  | inl e => throw e
  | inr _ => Ret r
  end.

(** Two tasks running together: when both can go on the scheduler picks
    the one that takes the next step. *)
Fixpoint par {A B} (t1 : Task A) : Task B -> Task (A * B) :=
  fix par_r (t2 : Task B) : Task (A * B) :=
    match t1 with
    | Ret a => b <- t2 ;; Ret (a, b)
    | Act op1 k1 =>
        match t2 with
        | Ret b => Act op1 (fun x => par (k1 x) (Ret b))
        | Act op2 k2 =>
            Act Pick (fun first : bool =>
              if first then Act op1 (fun x => par (k1 x) t2)
              else Act op2 (fun y => par_r (k2 y)))
        end
    end.

(** All the tasks of a list running together, until each has settled. *)
Fixpoint all_settled {A} (ts : list (Task A)) : Task (list A) :=
  match ts with
  | [] => Ret []
  | t :: rest => p <- par t (all_settled rest) ;; Ret (p.1 :: p.2)
  end.

(** The results of settled tasks: the first thrown value, or all the
    values. *)
Fixpoint collect {A} (rs : list (Thrown + A)) : Thrown + list A :=
  match rs with
  | [] => inr []
  | inl e :: _ => inl e
  | inr a :: rest =>
      match collect rest with
      | inl e => inl e
      | inr l => inr (a :: l)
      end
  end.

(** [await Promise.all(ts)].  The tasks are run until all have settled.
    The source's [Promise.all] rejects as soon as one task rejects and
    lets the others go on unobserved; the tasks this program hands to it
    never reject (see [warm_one_ok], [fetchUrlsFromSitemap_ok] and
    [domain_task_ok]), and then both agree. *)
Definition Promise_all {A} (ts : list (Task (Thrown + A)))
  : Task (Thrown + list A) :=
  rs <- all_settled ts ;; Ret (collect rs).

(** ** The program *)

Section Program.

Context (env : Env).

(** *** Logger methods that wait *)

(** [new AppsScriptLogger()].  [cryptoRandomId()] is an opaque string
    given by the world; the two dates are the one of [startedAt] and the
    default argument of [makeSheetNameForRun]. *)
Definition new_AppsScriptLogger : Task unit :=
  id <- act RandomId ;;
  started <- act DateNow ;;
  sheet <- act DateNow ;;
  act (LoggerSet (fun _ =>
    {| rows := [];
       runId := id;
       startedAt := toISOString started;
       finishedAt := JNull;
       sheetName := makeSheetNameForRun sheet |})).

(** [setFinished()] *)
Definition setFinished : Task (Thrown + unit) :=
  now <- act DateNow ;;
  act (LoggerSet (setFinished_at now)) ;;
  ok tt.

(** [flush()] *)
Definition flush : Task (Thrown + unit) :=
  this <- act LoggerGet ;;
  if negb (env_truthy (APPS_SCRIPT_URL env)) || (length (rows this) =? 0)%nat
  then ok tt
  else
    try_catch
      (_ <-! act (AxiosPost
                    (default "" (APPS_SCRIPT_URL env))
                    (JObj [("sheetName", JStr (sheetName this));
                           ("rows", JArr (List.map JArr (rows this)))])
                    {| post_timeout := Some 20000;
                       post_authorization := None |}) ;;
       ok tt)
      (fun _ => act (Console LWarn "Apps Script logging error:") ;; ok tt).

(** *** Sitemaps *)

(** [fetchWithProxy(url, country, timeout)] *)
Definition fetchWithProxy (u : Js) (country : string) (timeout : Z)
  : Task (Thrown + Js) :=
  cfg <-! Ret (buildAxiosCfg env country (Some timeout)) ;;
  res <-! act (AxiosGet u cfg) ;;
  ok (res_data res).

Definition TypeError : Thrown :=
  TErr {| isAxiosError := false; err_code := None;
          err_message := Some "Cannot read properties" |}.

(** [e.loc]: reading a property of [null] or [undefined] throws. *)
Definition get_loc (e : Js) : Thrown + Js :=
  match e with
  | JUndefined | JNull => inl TypeError
  | _ => inr (opt_prop e "loc")
  end.

(** [xs.map((e) => e.loc)] *)
Fixpoint map_loc (xs : list Js) : Thrown + list Js :=
  match xs with
  | [] => inr []
  | e :: rest =>
      match get_loc e with
      | inl err => inl err
      | inr l =>
          match map_loc rest with
          | inl err => inl err
          | inr ls => inr (l :: ls)
          end
      end
  end.

(** [(Array.isArray(list) ? list : [list]).map((e) => e.loc).filter(Boolean)] *)
Definition locs (items : Js) : Thrown + list Js :=
  match map_loc (as_array items) with
  | inl err => inl err
  | inr ls => inr (filter_Boolean ls)
  end.

(** [fetchIndexSitemaps(domain, country)] *)
Definition fetchIndexSitemaps (domain country : string)
  : Task (Thrown + list Js) :=
  try_catch
    (xml <-! fetchWithProxy (JStr (domain +:+ "/sitemap_index.xml")) country 15000 ;;
     result <-! act (ParseString xml) ;;
     let items := opt_prop (opt_prop result "sitemapindex") "sitemap" in
     if negb (truthy items) then ok []
     else Ret (locs items))
    (fun _ => ok []).

(** [fetchUrlsFromSitemap(sitemapUrl, country)] *)
Definition fetchUrlsFromSitemap (sitemapUrl : Js) (country : string)
  : Task (Thrown + list Js) :=
  try_catch
    (xml <-! fetchWithProxy sitemapUrl country 15000 ;;
     result <-! act (ParseString xml) ;;
     let items := opt_prop (opt_prop result "urlset") "url" in
     if negb (truthy items) then ok []
     else Ret (locs items))
    (fun _ => ok []).

(** *** Requests *)

(** [axios.isAxiosError(err)] *)
Definition axios_isAxiosError (err : Thrown) : bool :=
  match err with
  | TNull => false
  | TErr e => isAxiosError e
  end.

(** [err?.code || ""] *)
Definition code_of (err : Thrown) : string :=
  match err with
  | TNull => ""
  | TErr e => default "" (err_code e)
  end.

Definition TRANSIENT : list string :=
  ["ECONNABORTED"; "ECONNRESET"; "ETIMEDOUT"].

(** The test that lets the loop of [retryableGet] go on after a failure. *)
Definition transient (err : Thrown) : bool :=
  axios_isAxiosError err && existsb (String.eqb (code_of err)) TRANSIENT.

(** The [for] loop of [retryableGet], [n] iterations being left and
    [lastError] holding its current value; leaving the loop throws
    [lastError]. *)
Fixpoint retry_loop (n : nat) (u : Js) (cfg : AxiosCfg) (lastError : Thrown)
  : Task (Thrown + Response) :=
  match n with
  | O => throw lastError
  | S n' =>
      r <- act (AxiosGet u cfg) ;;
      match r with
      | inr res => ok res
      | inl err =>
          if negb (transient err) then throw err
          else act (Sleep Backoff 2000) ;; retry_loop n' u cfg err
      end
  end.

(** [retryableGet(url, cfg, retries)]: the loop runs for
    [i = 0, ..., retries - 1]. *)
Definition retryableGet (u : Js) (cfg : AxiosCfg) (retries : Z)
  : Task (Thrown + Response) :=
  retry_loop (Z.to_nat retries) u cfg TNull.

(** [purgeCloudflareCache(url)] *)
Definition purgeCloudflareCache (u : Js) : Task (Thrown + unit) :=
  act (PurgeCalled u) ;;
  if negb (env_truthy (CLOUDFLARE_ZONE_ID env))
     || negb (env_truthy (CLOUDFLARE_API_TOKEN env))
  then ok tt
  else
    try_catch
      (purgeRes <-! act (AxiosPost
          ("https://api.cloudflare.com/client/v4/zones/"
             +:+ default "" (CLOUDFLARE_ZONE_ID env) +:+ "/purge_cache")
          (JObj [("files", JArr [u])])
          {| post_timeout := None;
             post_authorization :=
               Some ("Bearer " +:+ default "" (CLOUDFLARE_API_TOKEN env)) |}) ;;
       if negb (truthy (opt_prop (res_data purgeRes) "success"))
       then act (Console LWarn "Failed to purge Cloudflare") ;; ok tt
       else ok tt)
      (fun _ => act (Console LWarn "Error purging Cloudflare") ;; ok tt).

(** *** Warming *)

(** [res.headers[name] || "N/A"] *)
Definition header_or_NA (res : Response) (name : string) : string :=
  match res_headers res !! name with
  | Some s => if String.eqb s "" then "N/A" else s
  | None => "N/A"
  end.

(** [cfRay.includes("-") ? cfRay.split("-")[1] : "N/A"] *)
Definition cfEdge_of (cfRay : string) : Js :=
  if includes_hyphen cfRay then js_index (split_hyphen cfRay) 1
  else JStr "N/A".

(** [err?.message || "request failed"] *)
Definition message_of (err : Thrown) : Js :=
  match err with
  | TErr {| err_message := Some m |} =>
      if String.eqb m "" then JStr "request failed" else JStr m
  | _ => JStr "request failed"
  end.

(** The row logged for a response. *)
Definition success_args (u : Js) (res : Response) (dt : Z) : LogArgs :=
  let cfCache := header_or_NA res "cf-cache-status" in
  let lsCache := header_or_NA res "x-litespeed-cache" in
  let cfRay := header_or_NA res "cf-ray" in
  let cfEdge := cfEdge_of cfRay in
  {| country := cfEdge;
     url := u;
     status := JNum (res_status res);
     cfCache := JStr cfCache;
     lsCache := JStr lsCache;
     cfRay := JStr cfRay;
     responseMs := JNum dt;
     error := JNum 0;
     message := JStr "" |}.

(** The row logged for a failure. *)
Definition failure_args (country : string) (u : Js) (err : Thrown) (dt : Z)
  : LogArgs :=
  {| country := JStr country;
     url := u;
     status := JUndefined;
     cfCache := JUndefined;
     lsCache := JUndefined;
     cfRay := JUndefined;
     responseMs := JNum dt;
     error := JNum 1;
     message := message_of err |}.

(** [String(lsCache).toLowerCase() !== "hit"] *)
Definition not_hit (lsCache : string) : bool :=
  negb (String.eqb (toLowerCase lsCache) "hit").

(** Lines 211 to 215, the call
    [retryableGet(url, buildAxiosCfg(country, { timeout: 15000 }), 3)]:
    its second argument is evaluated first and can throw, in which case
    [retryableGet] is not entered. *)
Definition warm_get (country : string) (u : Js) : Task (Thrown + Response) :=
  cfg <-! Ret (buildAxiosCfg env country (Some 15000)) ;;
  retryableGet u cfg 3.

(** The function [warmUrls] maps over a batch. *)
Definition warm_one (country : string) (u : Js) : Task (Thrown + unit) :=
  t0 <- act DateNow ;;
  try_catch
    (res <-! warm_get country u ;;
     t1 <- act DateNow ;;
     let dt := t1 - t0 in
     act (Console LLog "warmed") ;;
     act (LoggerSet (log (success_args u res dt))) ;;
     if not_hit (header_or_NA res "x-litespeed-cache")
     then purgeCloudflareCache u
     else ok tt)
    (fun err =>
     t1 <- act DateNow ;;
     let dt := t1 - t0 in
     act (Console LWarn "Failed to warm") ;;
     act (LoggerSet (log (failure_args country u err dt))) ;;
     ok tt).

(** [Math.ceil(n / b)] for a positive integer [b] *)
Definition ceil_div (n b : nat) : nat :=
  (n / b + (if (n mod b =? 0)%nat then 0 else 1))%nat.

(** [urls.slice(from, to)] *)
Definition slice (urls : list Js) (from to : nat) : list Js :=
  take (to - from) (drop from urls).

(** The array [batches] of [warmUrls], for a batch size of at least 1. *)
Definition batches (urls : list Js) (batchSize : nat) : list (list Js) :=
  List.map
    (fun i => slice urls (i * batchSize) (i * batchSize + batchSize))
    (seq 0 (ceil_div (length urls) batchSize)).

(** The loop [for (const batch of batches)] *)
Fixpoint warm_batches (country : string) (bs : list (list Js)) (delay : Z)
  : Task (Thrown + unit) :=
  match bs with
  | [] => ok tt
  | batch :: rest =>
      _ <-! Promise_all (List.map (warm_one country) batch) ;;
      act (Sleep InterBatch delay) ;;
      warm_batches country rest delay
  end.

(** [warmUrls(urls, country, logger, batchSize, delay)]; the logger is
    the one of the state. *)
Definition warmUrls (urls : list Js) (country : string)
    (batchSize : nat) (delay : Z) : Task (Thrown + unit) :=
  warm_batches country (batches urls batchSize) delay.

(** *** Main *)

(** Lines 274 to 278: the URLs of a domain. *)
Definition resolve (domain country : string) : Task (Thrown + list Js) :=
  sitemapList <-! fetchIndexSitemaps domain country ;;
  urlArrays <-! Promise_all
    (List.map (fun s => fetchUrlsFromSitemap s country) sitemapList) ;;
  ok (filter_Boolean (concat urlArrays)).

Definition found_message (n : nat) (country : string) : string :=
  "Found " +:+ pretty n +:+ " URLs for " +:+ country.

Definition summary_args (country : string) (n : nat) : LogArgs :=
  {| country := JStr country;
     url := JUndefined;
     status := JUndefined;
     cfCache := JUndefined;
     lsCache := JUndefined;
     cfRay := JUndefined;
     responseMs := JUndefined;
     error := JUndefined;
     message := JStr (found_message n country) |}.

(** The function [main] maps over [Object.entries(DOMAINS_MAP)]. *)
Definition domain_task (entry : string * string) : Task (Thrown + unit) :=
  let country := entry.1 in
  let domain := entry.2 in
  urls <-! resolve domain country ;;
  act (Console LLog "Found URLs") ;;
  act (LoggerSet (log (summary_args country (length urls)))) ;;
  warmUrls urls country 1 2000.

(** The body of the script. *)
Definition main : Task (Thrown + unit) :=
  act DateNow ;;
  act (Console LLog "[CacheWarmer] Started") ;;
  new_AppsScriptLogger ;;
  _ <-! try_finally
          (Promise_all (List.map domain_task DOMAINS_MAP))
          (_ <-! setFinished ;; flush) ;;
  act DateNow ;;
  act (Console LLog "[CacheWarmer] Finished") ;;
  ok tt.

End Program.

(** ** Running a task *)

(** What an observer of the process sees, in order, and the entries into
    [purgeCloudflareCache]. *)
Inductive Event : Type :=
| EvGet (u : Js) (cfg : AxiosCfg) (r : Thrown + Response)
| EvPost (u : string) (body : Js) (cfg : PostCfg) (r : Thrown + Response)
| EvSleep (site : SleepSite) (ms : Z)
| EvConsole (lvl : Level) (text : string)
| EvPurgeCalled (u : Js).

(** The world answers the operations.  Answers that can change from one
    call to the next are indexed by the number of operations performed so
    far, so that every course of a real run is the run of some world. *)
Record World := {
  http_get : nat -> Js -> AxiosCfg -> Thrown + Response;
  http_post : nat -> string -> Js -> PostCfg -> Thrown + Response;
  parse_xml : Js -> Thrown + Js;
  clock : nat -> Z;
  random_id : nat -> string;
  pick : nat -> bool;
}.

Record St := {
  tick : nat;
  logger : AppsScriptLogger;
  trace : list Event;
}.

(** The answer of the world to an operation. *)
Definition answer {X} (w : World) (op : Op X) (st : St) : X :=
  match op in Op X return X with
  | AxiosGet u cfg => http_get w (tick st) u cfg
  | AxiosPost u body cfg => http_post w (tick st) u body cfg
  | ParseString xml => parse_xml w xml
  | Sleep _ _ => tt
  | DateNow => clock w (tick st)
  | RandomId => random_id w (tick st)
  | Console _ _ => tt
  | LoggerGet => logger st
  | LoggerSet _ => tt
  | PurgeCalled _ => tt
  | Pick => pick w (tick st)
  end.

(** The events an operation leaves in the trace, given its answer. *)
Definition op_events {X} (op : Op X) : X -> list Event :=
  match op in Op X return X -> list Event with
  | AxiosGet u cfg => fun r => [EvGet u cfg r]
  | AxiosPost u body cfg => fun r => [EvPost u body cfg r]
  | Sleep site ms => fun _ => [EvSleep site ms]
  | Console lvl text => fun _ => [EvConsole lvl text]
  | PurgeCalled u => fun _ => [EvPurgeCalled u]
  | _ => fun _ => []
  end.

(** The logger after an operation. *)
Definition op_logger {X} (op : Op X) (l : AppsScriptLogger) : AppsScriptLogger :=
  match op with
  | LoggerSet f => f l
  | _ => l
  end.

Definition perform {X} (w : World) (op : Op X) (st : St) : X * St :=
  let x := answer w op st in
  (x, {| tick := S (tick st);
         logger := op_logger op (logger st);
         trace := trace st ++ op_events op x |}).

Fixpoint run {A} (w : World) (t : Task A) (st : St) : A * St :=
  match t with
  | Ret a => (a, st)
  | Act op k => let p := perform w op st in run w (k p.1) p.2
  end.

(** The events of a run. *)
Definition emitted {A} (w : World) (t : Task A) (st : St) : list Event :=
  drop (length (trace st)) (trace (run w t st).2).

(** *** Measures of a trace *)

Definition is_get (ev : Event) : bool :=
  match ev with EvGet _ _ _ => true | _ => false end.

Definition is_sleep (site : SleepSite) (ev : Event) : bool :=
  match ev, site with
  | EvSleep Backoff _, Backoff => true
  | EvSleep InterBatch _, InterBatch => true
  | _, _ => false
  end.

Definition is_purge_call (ev : Event) : bool :=
  match ev with EvPurgeCalled _ => true | _ => false end.

Definition is_post (ev : Event) : bool :=
  match ev with EvPost _ _ _ _ => true | _ => false end.


Definition count (p : Event -> bool) (tr : list Event) : nat :=
  length (List.filter p tr).

(** Milliseconds slept at a call site. *)
Fixpoint total_delay (site : SleepSite) (tr : list Event) : Z :=
  match tr with
  | [] => 0
  | ev :: rest =>
      (if is_sleep site ev then match ev with EvSleep _ ms => ms | _ => 0 end
       else 0) + total_delay site rest
  end.

Fixpoint sum_events (m : Event -> Z) (tr : list Event) : Z :=
  match tr with
  | [] => 0
  | ev :: rest => m ev + sum_events m rest
  end.

(** The URLs of the GETs of a trace. *)
Definition get_urls (tr : list Event) : list Js :=
  omap (fun ev => match ev with
                  | EvGet u _ _ => Some u
                  | _ => None
                  end) tr.

(** ** Properties of all the paths of a task *)

(** Every operation of the task satisfies [P]. *)
Fixpoint ops_all {A} (P : forall X, Op X -> Prop) (t : Task A) : Prop :=
  match t with
  | Ret _ => True
  | Act op k => P _ op /\ forall x, ops_all P (k x)
  end.

(** Every result of the task satisfies [R]. *)
Fixpoint leaves_all {A} (R : A -> Prop) (t : Task A) : Prop :=
  match t with
  | Ret a => R a
  | Act op k => forall x, leaves_all R (k x)
  end.


(** On every path of [t], the measure of the events of the path, added to
    [acc], and the result satisfy [Q]. *)
Fixpoint paths_sum {A} (m : Event -> Z) (t : Task A) (acc : Z)
    (Q : Z -> A -> Prop) : Prop :=
  match t with
  | Ret a => Q acc a
  | Act op k =>
      forall x, paths_sum m (k x) (acc + sum_events m (op_events op x)) Q
  end.

(** Tasks whose paths all have measure 0, whatever they return. *)
Definition silent {A} (m : Event -> Z) (t : Task A) : Prop :=
  paths_sum m t 0 (fun z _ => z = 0).

(** Every event an operation can leave satisfies [Q]. *)
Definition emits (Q : Event -> Prop) (X : Type) (op : Op X) : Prop :=
  forall x, Forall Q (op_events op x).

Definition no_logger_set (X : Type) (op : Op X) : Prop :=
  match op with
  | LoggerSet _ => False
  | _ => True
  end.

(** Operations that add to the logger rows built from arguments that
    satisfy [G], and change nothing else in it. *)
Definition logs (G : LogArgs -> Prop) (X : Type) (op : Op X) : Prop :=
  match op with
  | LoggerSet f => exists a, G a /\ f = log a
  | _ => True
  end.

Definition resolves {A} (r : Thrown + A) : Prop := exists a, r = inr a.

(** ** The vocabulary of the statements *)

(** *** Requests and their outcome *)

(** The events of an attempt that is followed by a new iteration. *)
Definition failed_attempt (u : Js) (cfg : AxiosCfg) (e : Thrown) : list Event :=
  [EvGet u cfg (inl e); EvSleep Backoff 2000].

Definition is_transient_failure (r : Thrown + Response) : bool :=
  match r with
  | inl e => transient e
  | inr _ => false
  end.

Definition flush_url (env : Env) : string := default "" (APPS_SCRIPT_URL env).

Definition flush_body (this : AppsScriptLogger) : Js :=
  JObj [("sheetName", JStr (sheetName this));
        ("rows", JArr (List.map JArr (rows this)))].

Definition flush_cfg : PostCfg :=
  {| post_timeout := Some 20000; post_authorization := None |}.

(** The URL of the purge request and what is sent to it. *)
Definition purge_url (env : Env) : string :=
  "https://api.cloudflare.com/client/v4/zones/"
    +:+ default "" (CLOUDFLARE_ZONE_ID env) +:+ "/purge_cache".

Definition purge_body (u : Js) : Js := JObj [("files", JArr [u])].

Definition purge_cfg (env : Env) : PostCfg :=
  {| post_timeout := None;
     post_authorization :=
       Some ("Bearer " +:+ default "" (CLOUDFLARE_API_TOKEN env)) |}.

Definition purge_enabled (env : Env) : bool :=
  env_truthy (CLOUDFLARE_ZONE_ID env) && env_truthy (CLOUDFLARE_API_TOKEN env).

(** *** The trace header and the cache status *)

(** The part of [s] after its first hyphen, if it has one. *)
Fixpoint after_first_hyphen (s : string) : option string :=
  match s with
  | EmptyString => None
  | String c rest =>
      if Ascii.eqb c hyphen then Some rest else after_first_hyphen rest
  end.

(** The part of [s] before its first hyphen, all of [s] if it has none. *)
Fixpoint until_hyphen (s : string) : string :=
  match s with
  | EmptyString => EmptyString
  | String c rest =>
      if Ascii.eqb c hyphen then EmptyString else String c (until_hyphen rest)
  end.

(** The token of a trace header, as the code derives it: what stands
    between the first hyphen and the next one, or the end. *)
Definition edge_token (h : option string) : Js :=
  match h with
  | Some s =>
      match after_first_hyphen s with
      | Some t => JStr (until_hyphen t)
      | None => JStr "N/A"
      end
  | None => JStr "N/A"
  end.

(** The token of a trace header, in the words of the specification: the
    header is split on its first hyphen and the second part is taken. *)
Definition token_after_first_hyphen (h : option string) : Js :=
  match h with
  | Some s =>
      match after_first_hyphen s with
      | Some t => JStr t
      | None => JStr "N/A"
      end
  | None => JStr "N/A"
  end.

Definition one_of (c a b : ascii) : bool := Ascii.eqb c a || Ascii.eqb c b.

(** [s] is [hit] up to the case of its letters. *)
Definition eq_ignore_case_hit (s : string) : bool :=
  match s with
  | String c1 (String c2 (String c3 EmptyString)) =>
      one_of c1 "h" "H" && one_of c2 "i" "I" && one_of c3 "t" "T"
  | _ => false
  end.

(** The secondary cache status, in the words of the specification: the
    [x-litespeed-cache] header is present and reads [hit] up to case. *)
Definition ls_hit (res : Response) : bool :=
  match res_headers res !! "x-litespeed-cache" with
  | Some s => eq_ignore_case_hit s
  | None => false
  end.

Definition is_purge_of (sel : Js -> bool) (ev : Event) : bool :=
  match ev with
  | EvPurgeCalled u => sel u
  | _ => false
  end.

(** A GET of a selected URL that was answered, the answer not being a
    LiteSpeed hit. *)
Definition is_cold_answer (sel : Js -> bool) (ev : Event) : bool :=
  match ev with
  | EvGet u _ (inr res) => sel u && negb (ls_hit res)
  | _ => false
  end.

(** Purge calls count for 1, cold answers for -1. *)
Definition balance (sel : Js -> bool) (ev : Event) : Z :=
  (if is_purge_of sel ev then 1 else 0) - (if is_cold_answer sel ev then 1 else 0).

(** The arguments of the two calls of [log] in [warmUrls]. *)
Definition warm_args (country : string) (a : LogArgs) : Prop :=
  (exists u res dt, a = success_args u res dt) \/
  (exists u err dt, a = failure_args country u err dt).


(** *** Batches and sitemaps *)



(** What a sitemap request yields, given its answer: the locations under
    [root.child] of the parsed document, and nothing when the request
    failed, the document does not parse, the entries are missing or
    reading a location throws. *)
Definition listed_locs (w : World) (root child : string)
    (r : Thrown + Response) : list Js :=
  match r with
  | inl _ => []
  | inr res =>
      match parse_xml w (res_data res) with
      | inl _ => []
      | inr result =>
          let items := opt_prop (opt_prop result root) child in
          if truthy items
          then match locs items with
               | inl _ => []
               | inr ls => ls
               end
          else []
      end
  end.










(** ** Sample worlds *)

Module Sample.

Definition env_all : Env :=
  {| APPS_SCRIPT_URL := Some "https://script.example/exec";
     BRD_PROXY_ID := Some "http://proxy.example:22225";
     CLOUDFLARE_ZONE_ID := Some "zone";
     CLOUDFLARE_API_TOKEN := Some "token";
     HttpsProxyAgent_throws := fun _ => None |}.

Definition env_none : Env :=
  {| APPS_SCRIPT_URL := None;
     BRD_PROXY_ID := None;
     CLOUDFLARE_ZONE_ID := None;
     CLOUDFLARE_API_TOKEN := None;
     HttpsProxyAgent_throws := fun _ => None |}.

Definition invalid_url : Thrown :=
  TErr {| isAxiosError := false;
          err_code := Some "ERR_INVALID_URL";
          err_message := Some "Invalid URL" |}.

(** An installation whose agent refuses every proxy but a URL, and a
    proxy variable that is not a URL. *)
Definition env_bad_proxy : Env :=
  {| APPS_SCRIPT_URL := None;
     BRD_PROXY_ID := Some "not a url";
     CLOUDFLARE_ZONE_ID := None;
     CLOUDFLARE_API_TOKEN := None;
     HttpsProxyAgent_throws := fun proxy =>
       match proxy with
       | MStr s => if String.prefix "http" s then None else Some invalid_url
       | _ => Some invalid_url
       end |}.

Definition timeout_error : Thrown :=
  TErr {| isAxiosError := true;
          err_code := Some "ETIMEDOUT";
          err_message := Some "timeout of 15000ms exceeded" |}.

Definition reset_error : Thrown :=
  TErr {| isAxiosError := true;
          err_code := Some "ECONNRESET";
          err_message := Some "socket hang up" |}.

Definition dns_error : Thrown :=
  TErr {| isAxiosError := true;
          err_code := Some "ENOTFOUND";
          err_message := Some "getaddrinfo ENOTFOUND" |}.

Definition response (hs : list (string * string)) (data : Js) : Response :=
  {| res_status := 200; res_headers := list_to_map hs; res_data := data |}.

(** A world whose GETs are answered by [get]: posts succeed, nothing
    parses, the clock shows one second per operation and the scheduler
    alternates. *)
Definition world_of (get : nat -> Js -> Thrown + Response) : World :=
  {| http_get := fun n u _ => get n u;
     http_post := fun _ _ _ _ =>
       inr (response [] (JObj [("success", JBool true)]));
     parse_xml := fun _ => inl TNull;
     clock := fun n => 1000 * Z.of_nat n;
     random_id := fun _ => "k3x9";
     pick := Nat.even |}.

Definition always_timeout : World := world_of (fun _ _ => inl timeout_error).

(** Two resets, then an answer. *)
Definition flaky : World :=
  world_of (fun n _ =>
    if (n <? 4)%nat then inl reset_error
    else inr (response [("cf-ray", "8f2a-SIN")] (JStr ""))).

Definition always_answers (hs : list (string * string)) : World :=
  world_of (fun _ _ => inr (response hs (JStr ""))).

Definition logger0 : AppsScriptLogger :=
  {| rows := [];
     runId := "k3x9";
     startedAt := "2026-11-02T14:24:05.123Z";
     finishedAt := JNull;
     sheetName := "2026-11-02_22-24-05_WITA" |}.

Definition state0 : St := {| tick := 0; logger := logger0; trace := [] |}.

Definition page (s : string) : Js := JStr ("https://divemasterlembongan.com/" +:+ s).

(** The configuration [buildAxiosCfg] gives for [id] without a proxy. *)
Definition cfg_id : AxiosCfg :=
  {| cfg_userAgent := MStr "DiveMasterLembongan-CacheWarmer-ID/1.0";
     cfg_timeout := 15000;
     cfg_httpsAgent := None |}.

End Sample.

Module Site.

Definition base : string := "https://divemasterlembongan.com".
Definition index_url : string := base +:+ "/sitemap_index.xml".
Definition child_url : string := base +:+ "/page-sitemap.xml".

(** An index with a single child, which xml2js gives as an object and not
    as an array, and a child that lists the home page twice. *)
Definition index_doc : Js :=
  JObj [("sitemapindex", JObj [("sitemap", JObj [("loc", JStr child_url)])])].

Definition pages_doc : Js :=
  JObj [("urlset",
         JObj [("url", JArr [JObj [("loc", Sample.page "")];
                             JObj [("loc", Sample.page "")]])])].

Definition site_get (u : Js) : Thrown + Response :=
  match u with
  | JStr s =>
      if String.eqb s index_url then inr (Sample.response [] (JStr "index"))
      else if String.eqb s child_url then inr (Sample.response [] (JStr "pages"))
      else inr (Sample.response [("cf-ray", "8f2a-SIN");
                                 ("x-litespeed-cache", "hit")] (JStr ""))
  | _ => inl Sample.dns_error
  end.

Definition site_parse (xml : Js) : Thrown + Js :=
  match xml with
  | JStr s =>
      if String.eqb s "index" then inr index_doc
      else if String.eqb s "pages" then inr pages_doc
      else inl TNull
  | _ => inl TNull
  end.

Definition site : World :=
  {| http_get := fun _ u _ => site_get u;
     http_post := fun _ _ _ _ =>
       inr (Sample.response [] (JObj [("success", JBool true)]));
     parse_xml := site_parse;
     clock := fun n => 1000 * Z.of_nat n;
     random_id := fun _ => "k3x9";
     pick := Nat.even |}.

(** The same site behind an index that lists a second child first, which
    the server does not have. *)
Definition missing_url : string := base +:+ "/post-sitemap.xml".

Definition index2_doc : Js :=
  JObj [("sitemapindex",
         JObj [("sitemap", JArr [JObj [("loc", JStr missing_url)];
                                 JObj [("loc", JStr child_url)]])])].

Definition two_children : World :=
  {| http_get := fun _ u _ =>
       match u with
       | JStr s =>
           if String.eqb s index_url
           then inr (Sample.response [] (JStr "index2"))
           else if String.eqb s missing_url then inl Sample.dns_error
           else site_get u
       | _ => inl Sample.dns_error
       end;
     http_post := fun _ _ _ _ =>
       inr (Sample.response [] (JObj [("success", JBool true)]));
     parse_xml := fun xml =>
       match xml with
       | JStr s => if String.eqb s "index2" then inr index2_doc
                   else site_parse xml
       | _ => inl TNull
       end;
     clock := fun n => 1000 * Z.of_nat n;
     random_id := fun _ => "k3x9";
     pick := Nat.even |}.

End Site.

(** ** Vocabulary of a whole run *)

(** Index of the run identifier in a row. *)
Definition RUN_ID : nat := 0.

(** Index of the start time in a row. *)
Definition STARTED : nat := 1.


(** A POST to the logging sink: the one request sent with the timeout of
    20 s. *)
Definition is_sink_post (ev : Event) : bool :=
  match ev with
  | EvPost _ _ cfg _ =>
      match post_timeout cfg with
      | Some ms => ms =? 20000
      | None => false
      end
  | _ => false
  end.

(** A logger whose rows all have twelve cells and carry its run
    identifier and its start time. *)
Definition rows_stamped (l : AppsScriptLogger) : Prop :=
  Forall (fun row => length row = 12%nat /\
                     js_get row RUN_ID = JStr (runId l) /\
                     js_get row STARTED = JStr (startedAt l))
         (rows l).

(** What [main] does before its [try]. *)
Definition main_prefix : Task unit :=
  act DateNow ;;
  act (Console LLog "[CacheWarmer] Started") ;;
  new_AppsScriptLogger.

(** The state [main] is in when it enters its [try]. *)
Definition main_started (w : World) (st : St) : St :=
  (run w main_prefix st).2.

(** The pipeline of the one configured domain, run from there. *)
Definition main_body (env : Env) (w : World) (st : St) : (Thrown + unit) * St :=
  run w (domain_task env ("id", "https://divemasterlembongan.com"))
      (main_started w st).

(** The state after [setFinished()], when [flush()] starts. *)
Definition main_finished (env : Env) (w : World) (st : St) : St :=
  (run w setFinished (main_body env w st).2).2.

(** The operations the pipeline of a domain can perform: GETs with the
    configuration of the country and the timeout of 15 s, POSTs that purge
    one URL of the zone, which need both CDN credentials, waits of 2000 ms,
    and calls of [log]; it neither reads the logger nor draws an
    identifier. *)
Definition domain_op (env : Env) (country : string) (X : Type) (op : Op X)
  : Prop :=
  match op with
  | AxiosGet _ cfg => buildAxiosCfg env country (Some 15000) = inr cfg
  | AxiosPost url body cfg =>
      purge_enabled env = true /\ url = purge_url env /\
      cfg = purge_cfg env /\ exists u, body = purge_body u
  | Sleep _ ms => ms = 2000
  | LoggerSet f => exists a, f = log a
  | LoggerGet => False
  | RandomId => False
  | _ => True
  end.

(** The requests and the waits of the script. *)
Definition script_event (env : Env) (ev : Event) : Prop :=
  match ev with
  | EvGet _ cfg _ => buildAxiosCfg env "id" (Some 15000) = inr cfg
  | EvPost url body cfg _ =>
      (purge_enabled env = true /\ url = purge_url env /\
       cfg = purge_cfg env /\ exists u, body = purge_body u) \/
      (env_truthy (APPS_SCRIPT_URL env) = true /\ url = flush_url env /\
       cfg = flush_cfg /\ exists l, body = flush_body l)
  | EvSleep _ ms => ms = 2000
  | _ => True
  end.






(** The values whose properties can be read: all but [null] and
    [undefined]. *)
Definition readable (e : Js) : bool :=
  match e with
  | JUndefined | JNull => false
  | _ => true
  end.

(** *** Strings of digits *)

Definition is_digit (c : ascii) : bool :=
  let n := nat_of_ascii c in (48 <=? n)%nat && (n <=? 57)%nat.

Fixpoint all_digits (s : string) : bool :=
  match s with
  | EmptyString => true
  | String c rest => is_digit c && all_digits rest
  end.

(** A string of exactly [k] decimal digits. *)
Definition digits (k : nat) (s : string) : bool :=
  (String.length s =? k)%nat && all_digits s.

(** [p] holds of the [fuel] integers from [lo] on. *)
Fixpoint all_from (fuel : nat) (lo : Z) (p : Z -> bool) : bool :=
  match fuel with
  | O => true
  | S fuel' => p lo && all_from fuel' (lo + 1) p
  end.

(** Index of the response time in a row. *)
Definition RESPONSE_MS : nat := 9.

(** A row as [log] builds it: twelve cells, none of them [undefined], an
    error flag that is 0 or 1 and a response time that is a number or the
    empty string. *)
Definition row_defined (row : list Js) : Prop :=
  length row = 12%nat /\
  Forall (fun c => c <> JUndefined) row /\
  (js_get row ERROR = JNum 0 \/ js_get row ERROR = JNum 1) /\
  (js_get row RESPONSE_MS = JStr "" \/ exists n, js_get row RESPONSE_MS = JNum n).

(** * Theorems *)

(** ** The built-ins on examples *)

Example toISOString_epoch : toISOString 0 = "1970-01-01T00:00:00.000Z".
Proof. vm_compute. reflexivity. Qed.

Example toISOString_2026 :
  toISOString 1793629445123 = "2026-11-02T14:24:05.123Z".
Proof. vm_compute. reflexivity. Qed.

Example makeSheetNameForRun_2026 :
  makeSheetNameForRun 1793629445123 = "2026-11-02_22-24-05_WITA".
Proof. vm_compute. reflexivity. Qed.

Example split_hyphen_three : split_hyphen "a-b-c" = ["a"; "b"; "c"].
Proof. reflexivity. Qed.

(** ** Laws of the interpreter *)

Lemma run_bind {A B} w (t : Task A) (f : A -> Task B) st :
  run w (bind t f) st = run w (f (run w t st).1) (run w t st).2.
Proof.
  revert st. induction t as [a | X op k IH]; intros st; simpl.
  - reflexivity.
  - apply IH.
Qed.

Lemma run_bindE {A B} w (t : Task (Thrown + A)) (f : A -> Task (Thrown + B)) st :
  run w (bindE t f) st =
  match (run w t st).1 with
  | inl e => (inl e, (run w t st).2)
  | inr a => run w (f a) (run w t st).2
  end.
Proof. unfold bindE. rewrite run_bind. destruct (run w t st).1; reflexivity. Qed.

Lemma run_try_catch {A} w (body : Task (Thrown + A)) handler st :
  run w (try_catch body handler) st =
  match (run w body st).1 with
  | inl e => run w (handler e) (run w body st).2
  | inr a => (inr a, (run w body st).2)
  end.
Proof.
  unfold try_catch. rewrite run_bind. destruct (run w body st).1; reflexivity.
Qed.

(** A run only extends the trace. *)
Lemma trace_run {A} w (t : Task A) st :
  trace (run w t st).2 = trace st ++ emitted w t st.
Proof.
  unfold emitted. revert st.
  induction t as [a | X op k IH]; intros st; simpl.
  - rewrite drop_all, app_nil_r. reflexivity.
  - rewrite IH. simpl. rewrite <- app_assoc. f_equal.
    rewrite IH. simpl. rewrite <- app_assoc.
    rewrite !drop_app_length. reflexivity.
Qed.

Lemma emitted_Ret {A} w (a : A) st : emitted w (Ret a) st = [].
Proof. unfold emitted. simpl. apply drop_all. Qed.

Lemma emitted_Act {A X} w (op : Op X) (k : X -> Task A) st :
  emitted w (Act op k) st =
  op_events op (answer w op st) ++
  emitted w (k (answer w op st)) (perform w op st).2.
Proof.
  unfold emitted at 1. simpl. rewrite trace_run. simpl.
  rewrite <- app_assoc, drop_app_length. reflexivity.
Qed.

Lemma emitted_bind {A B} w (t : Task A) (f : A -> Task B) st :
  emitted w (bind t f) st =
  emitted w t st ++ emitted w (f (run w t st).1) (run w t st).2.
Proof.
  unfold emitted at 1. rewrite run_bind, trace_run, trace_run.
  rewrite <- app_assoc, drop_app_length. reflexivity.
Qed.

(** *** The equations of [par] *)

Lemma par_Act_Act {A B X Y} (op1 : Op X) (k1 : X -> Task A)
    (op2 : Op Y) (k2 : Y -> Task B) :
  par (Act op1 k1) (Act op2 k2) =
  Act Pick (fun first : bool =>
    if first then Act op1 (fun x => par (k1 x) (Act op2 k2))
    else Act op2 (fun y => par (Act op1 k1) (k2 y))).
Proof. reflexivity. Qed.

Lemma par_Act_Ret {A B X} (op1 : Op X) (k1 : X -> Task A) (b : B) :
  par (Act op1 k1) (Ret b) = Act op1 (fun x => par (k1 x) (Ret b)).
Proof. reflexivity. Qed.

Lemma par_Ret {A B} (a : A) (t2 : Task B) :
  par (Ret a) t2 = bind t2 (fun b => Ret (a, b)).
Proof. destruct t2; reflexivity. Qed.

(** *** Operations *)

Section OpsAll.

Context (P : forall X, Op X -> Prop).

Lemma ops_all_bind {A B} (t : Task A) (f : A -> Task B) :
  ops_all P t -> (forall a, ops_all P (f a)) -> ops_all P (bind t f).
Proof.
  intros Ht Hf. induction t as [a | X op k IH]; simpl in *; [apply Hf|].
  destruct Ht as [Hop Hk]. split; [done | intros x; by apply IH].
Qed.

Lemma ops_all_bindE {A B} (t : Task (Thrown + A)) (f : A -> Task (Thrown + B)) :
  ops_all P t -> (forall a, ops_all P (f a)) -> ops_all P (bindE t f).
Proof.
  intros Ht Hf. apply ops_all_bind; [done|]. intros [e|a]; simpl; auto.
Qed.

Lemma ops_all_try_catch {A} (body : Task (Thrown + A)) handler :
  ops_all P body -> (forall e, ops_all P (handler e)) ->
  ops_all P (try_catch body handler).
Proof.
  intros Hb Hh. apply ops_all_bind; [done|]. intros [e|a]; simpl; auto.
Qed.

Lemma ops_all_par {A B} (t1 : Task A) (t2 : Task B) :
  P bool Pick -> ops_all P t1 -> ops_all P t2 -> ops_all P (par t1 t2).
Proof.
  intros HP. revert t2.
  induction t1 as [a | X op1 k1 IH1]; intros t2 H1 H2.
  - rewrite par_Ret. by apply ops_all_bind.
  - induction t2 as [b | Y op2 k2 IH2].
    + rewrite par_Act_Ret. destruct H1 as [Hop Hk]. simpl.
      split; [done|]. intros x. by apply IH1.
    + rewrite par_Act_Act. destruct H1 as [Hop1 Hk1], H2 as [Hop2 Hk2].
      split; [done|]. intros [|]; (split; [done|]).
      * intros x. apply IH1; [apply Hk1 | by split].
      * intros y. apply IH2, Hk2.
Qed.

Lemma ops_all_all_settled {A} (ts : list (Task A)) :
  P bool Pick -> Forall (ops_all P) ts -> ops_all P (all_settled ts).
Proof.
  intros HP Hts. induction Hts as [| t rest Ht _ IH]; simpl; [done|].
  apply ops_all_bind; [by apply ops_all_par | done].
Qed.

Lemma ops_all_Promise_all {A} (ts : list (Task (Thrown + A))) :
  P bool Pick -> Forall (ops_all P) ts -> ops_all P (Promise_all ts).
Proof.
  intros HP Hts. apply ops_all_bind; [by apply ops_all_all_settled | done].
Qed.

End OpsAll.

(** *** Results *)

Lemma leaves_all_mono {A} (R S : A -> Prop) (t : Task A) :
  (forall a, R a -> S a) -> leaves_all R t -> leaves_all S t.
Proof.
  intros HRS. induction t as [a | X op k IH]; simpl; [apply HRS|].
  intros Hk x. by apply IH.
Qed.

Lemma leaves_all_bind {A B} (R : B -> Prop) (t : Task A) (f : A -> Task B) :
  leaves_all (fun a => leaves_all R (f a)) t -> leaves_all R (bind t f).
Proof.
  induction t as [a | X op k IH]; simpl; [done|].
  intros Hk x. by apply IH.
Qed.

Lemma leaves_all_True {A} (t : Task A) : leaves_all (fun _ => True) t.
Proof. induction t; simpl; auto. Qed.

Lemma leaves_all_par {A B} (R1 : A -> Prop) (R2 : B -> Prop) t1 t2 :
  leaves_all R1 t1 -> leaves_all R2 t2 ->
  leaves_all (fun p => R1 p.1 /\ R2 p.2) (par t1 t2).
Proof.
  revert t2. induction t1 as [a | X op1 k1 IH1]; intros t2 H1 H2.
  - rewrite par_Ret. apply leaves_all_bind.
    eapply leaves_all_mono; [|exact H2]. simpl. auto.
  - induction t2 as [b | Y op2 k2 IH2].
    + rewrite par_Act_Ret. simpl. intros x. apply IH1; [apply H1 | done].
    + rewrite par_Act_Act. simpl. intros [|].
      * intros x. apply IH1; [apply H1 | exact H2].
      * intros y. apply IH2, H2.
Qed.

Lemma leaves_all_all_settled {A} (R : A -> Prop) (ts : list (Task A)) :
  Forall (leaves_all R) ts ->
  leaves_all (fun rs => Forall R rs /\ length rs = length ts) (all_settled ts).
Proof.
  intros Hts. induction Hts as [| t rest Ht _ IH]; simpl; [by split|].
  apply leaves_all_bind.
  eapply leaves_all_mono; [|exact (leaves_all_par _ _ _ _ Ht IH)].
  simpl. intros [r rs] [Hr [Hrs Hlen]]. simpl in *.
  split; [by constructor | by rewrite Hlen].
Qed.

Lemma run_leaves_all {A} w (R : A -> Prop) (t : Task A) st :
  leaves_all R t -> R (run w t st).1.
Proof.
  revert st. induction t as [a | X op k IH]; intros st; simpl; [done|].
  intros Hk. apply IH, Hk.
Qed.

(** A property of the state that every permitted operation carries on
    holds at the end of the run. *)
Lemma run_ops_all {A} w (P : forall X, Op X -> Prop) (I : St -> Prop)
    (t : Task A) st :
  (forall X (op : Op X) s, P X op -> I s -> I (perform w op s).2) ->
  ops_all P t -> I st -> I (run w t st).2.
Proof.
  intros Hstep. revert st.
  induction t as [a | X op k IH]; intros st; simpl; [done|].
  intros [Hop Hk] HI. apply IH; [apply Hk | by apply Hstep].
Qed.

(** ** The run logger *)

Lemma append_nonempty (s1 s2 : string) : s2 <> "" -> s1 +:+ s2 <> "".
Proof. destruct s1; simpl; [done | discriminate]. Qed.

Lemma toISOString_nonempty t : toISOString t <> "".
Proof. unfold toISOString. repeat apply append_nonempty. discriminate. Qed.

Lemma js_get_set_index_eq r i v : js_get (js_set_index r i v) i = v.
Proof.
  unfold js_get, js_set_index. destruct (decide (i < length r)%nat) as [Hlt|Hge].
  - by rewrite list_lookup_insert_eq.
  - rewrite lookup_app_r by lia.
    rewrite lookup_app_r by (rewrite length_replicate; lia).
    rewrite length_replicate.
    replace (i - length r - (i - length r))%nat with 0%nat by lia.
    reflexivity.
Qed.

Lemma js_get_set_index_ne r i j v :
  j <> i -> js_get (js_set_index r i v) j = js_get r j.
Proof.
  intros Hne. unfold js_get, js_set_index.
  destruct (decide (i < length r)%nat) as [Hlt|Hge].
  - by rewrite list_lookup_insert_ne.
  - destruct (decide (j < length r)%nat) as [Hj|Hj].
    + by rewrite lookup_app_l.
    + rewrite (lookup_ge_None_2 r j) by lia.
      rewrite lookup_app_r by lia.
      destruct (decide (j - length r < i - length r)%nat) as [Hin|Hout].
      * rewrite lookup_app_l by (rewrite length_replicate; lia).
        by rewrite lookup_replicate_2.
      * rewrite lookup_app_r by (rewrite length_replicate; lia).
        rewrite length_replicate.
        destruct (j - length r - (i - length r))%nat as [|m] eqn:E; [lia|].
        reflexivity.
Qed.


Lemma run_setFinished w st :
  run w setFinished st =
  (inr tt,
   {| tick := S (S (tick st));
      logger := setFinished_at (clock w (tick st)) (logger st);
      trace := trace st |}).
Proof.
  unfold setFinished. simpl. unfold perform. simpl.
  rewrite !app_nil_r. reflexivity.
Qed.

(** Rows built by [log] have twelve cells; the finish cell holds the
    finish time the logger has at that moment. *)
Lemma log_rows a this :
  exists row,
    rows (log a this) = rows this ++ [row] /\
    length row = 12%nat /\
    js_get row FINISHED = finishedAt this /\
    js_get row COUNTRY = dflt (JStr "") (country a).
Proof. eexists. repeat split. Qed.

Lemma length_set_index r i v :
  length (js_set_index r i v) = (length r `max` S i)%nat.
Proof.
  unfold js_set_index. destruct (decide (i < length r)%nat).
  - rewrite length_insert. lia.
  - rewrite !length_app, length_replicate. simpl. lia.
Qed.

Lemma setFinished_at_rows now this :
  Forall2
    (fun r r' =>
       length r' = (length r `max` 3)%nat /\
       forall j, js_get r' j =
                 if decide (j = FINISHED) then JStr (toISOString now)
                 else js_get r j)
    (rows this) (rows (setFinished_at now this)).
Proof.
  simpl. induction (rows this) as [|r rs IH]; simpl; constructor; [|exact IH].
  split; [apply length_set_index|].
  intros j. destruct (decide (j = FINISHED)) as [->|Hne].
  - apply js_get_set_index_eq.
  - by apply js_get_set_index_ne.
Qed.

(** C5: once [setFinished()] has run, every row of the logger carries one
    and the same finish timestamp, which is the finish timestamp of the
    run and a non-empty string; a row logged earlier, whose finish cell
    held the value the logger had then ([null] before the end of the run,
    lemma [log_rows]), is overwritten and the number of rows is kept. *)
Theorem setFinished_stamps_every_row w st :
  let this := logger st in
  let this' := logger (run w setFinished st).2 in
  let fin := toISOString (clock w (tick st)) in
  fin <> "" /\
  finishedAt this' = JStr fin /\
  length (rows this') = length (rows this) /\
  Forall (fun r => js_get r FINISHED = JStr fin) (rows this').
Proof.
  rewrite run_setFinished. simpl.
  split; [apply toISOString_nonempty|]. split; [reflexivity|].
  split; [apply length_map|].
  apply List.Forall_forall. intros r Hin.
  apply in_map_iff in Hin as [r0 [<- _]].
  apply js_get_set_index_eq.
Qed.

(** C10: [setFinished()] keeps the rows in number and in order and, in
    each row, changes the finish-timestamp cell only: every other cell
    reads as before, and a row that has its cell keeps its length.  The
    other fields of the logger, but [finishedAt], are kept too. *)
Theorem setFinished_changes_finish_cell_only w st :
  let this := logger st in
  let this' := logger (run w setFinished st).2 in
  Forall2
    (fun r r' =>
       length r' = (length r `max` 3)%nat /\
       forall j, js_get r' j =
                 if decide (j = FINISHED) then finishedAt this'
                 else js_get r j)
    (rows this) (rows this') /\
  runId this' = runId this /\
  startedAt this' = startedAt this /\
  sheetName this' = sheetName this.
Proof.
  rewrite run_setFinished. cbn [snd logger].
  split; [apply setFinished_at_rows | by repeat split].
Qed.

(** ** [retryableGet] *)

(** C9: with a cap of zero or less [retryableGet] performs no operation
    at all, so no HTTP attempt, and throws [null], the initial value of
    [lastError]. *)
Theorem retryableGet_nonpositive_throws_null w st u cfg retries :
  retries <= 0 ->
  run w (retryableGet u cfg retries) st = (inl TNull, st).
Proof.
  intros Hle. unfold retryableGet.
  replace (Z.to_nat retries) with 0%nat by lia. reflexivity.
Qed.

(** ** [flush] *)

(** C8: [flush()] never throws and leaves the logger as it is.  Without a
    sink URL or without rows it leaves no event at all, so no network
    call; otherwise it posts once, and a failure of the request only
    yields a warning on the console. *)
Theorem flush_never_raises env w st :
  let skip := negb (env_truthy (APPS_SCRIPT_URL env))
              || (length (rows (logger st)) =? 0)%nat in
  let r := http_post w (S (tick st)) (flush_url env)
             (flush_body (logger st)) flush_cfg in
  (run w (flush env) st).1 = inr tt /\
  logger (run w (flush env) st).2 = logger st /\
  emitted w (flush env) st =
    if skip then []
    else EvPost (flush_url env) (flush_body (logger st)) flush_cfg r ::
         match r with
         | inl _ => [EvConsole LWarn "Apps Script logging error:"]
         | inr _ => []
         end.
Proof.
  unfold flush, emitted. simpl.
  destruct (negb (env_truthy (APPS_SCRIPT_URL env))
            || (length (rows (logger st)) =? 0)%nat); simpl.
  - rewrite app_nil_r, drop_all. done.
  - unfold flush_url, flush_body, flush_cfg.
    destruct (http_post w (S (tick st)) _ _ _); simpl;
      rewrite app_nil_r; rewrite <- ?app_assoc; rewrite drop_app_length; done.
Qed.

(** ** The retry loop *)

Lemma transient_spec err :
  transient err = true <->
  axios_isAxiosError err = true /\
  (code_of err = "ECONNABORTED" \/ code_of err = "ECONNRESET"
   \/ code_of err = "ETIMEDOUT").
Proof.
  unfold transient, TRANSIENT. simpl.
  rewrite andb_true_iff, !orb_true_iff, !String.eqb_eq. intuition discriminate.
Qed.

Lemma run_retry_loop_S w n u cfg le st :
  run w (retry_loop (S n) u cfg le) st =
  let st1 := (perform w (AxiosGet u cfg) st).2 in
  match http_get w (tick st) u cfg with
  | inr res => (inr res, st1)
  | inl err =>
      if transient err
      then run w (retry_loop n u cfg err) (perform w (Sleep Backoff 2000) st1).2
      else (inl err, st1)
  end.
Proof.
  simpl. destruct (http_get w (tick st) u cfg) as [err|res]; simpl; [|done].
  destruct (transient err); reflexivity.
Qed.

Lemma emitted_retry_loop_S w n u cfg le st :
  emitted w (retry_loop (S n) u cfg le) st =
  let st1 := (perform w (AxiosGet u cfg) st).2 in
  match http_get w (tick st) u cfg with
  | inr res => [EvGet u cfg (inr res)]
  | inl err =>
      if transient err
      then failed_attempt u cfg err ++
           emitted w (retry_loop n u cfg err) (perform w (Sleep Backoff 2000) st1).2
      else [EvGet u cfg (inl err)]
  end.
Proof.
  unfold emitted at 1. rewrite run_retry_loop_S. cbn zeta.
  destruct (http_get w (tick st) u cfg) as [err|res] eqn:Hget.
  - destruct (transient err).
    + rewrite trace_run. simpl. rewrite Hget, <- !app_assoc, drop_app_length.
      reflexivity.
    + simpl. rewrite Hget, drop_app_length. reflexivity.
  - simpl. rewrite Hget, drop_app_length. reflexivity.
Qed.

(** The course of the loop: some attempts that failed with a transient
    error, each followed by the backoff, and then either nothing, the
    iterations being used up, or a last attempt whose outcome is not a
    transient failure and is the outcome of the loop. *)
Lemma retry_loop_shape w n u cfg le st :
  exists (errs : list Thrown) (final : list Event),
    emitted w (retry_loop n u cfg le) st =
      flat_map (failed_attempt u cfg) errs ++ final /\
    Forall (fun e => transient e = true) errs /\
    ((final = [] /\ length errs = n /\
      (run w (retry_loop n u cfg le) st).1 = inl (default le (last errs)))
     \/
     (final = [EvGet u cfg (run w (retry_loop n u cfg le) st).1] /\
      (length errs < n)%nat /\
      is_transient_failure (run w (retry_loop n u cfg le) st).1 = false)).
Proof.
  revert le st. induction n as [|n IH]; intros le st.
  - exists [], []. cbn [retry_loop]. unfold throw. rewrite emitted_Ret.
    split; [done|]. split; [constructor|].
    left. done.
  - rewrite emitted_retry_loop_S, run_retry_loop_S. cbn zeta.
    destruct (http_get w (tick st) u cfg) as [err|res].
    + destruct (transient err) eqn:Htr.
      * destruct (IH err (perform w (Sleep Backoff 2000)
                           (perform w (AxiosGet u cfg) st).2).2)
          as (errs & final & Hem & Hall & Hcase).
        exists (err :: errs), final. split.
        { rewrite Hem. simpl. reflexivity. }
        split; [by constructor|].
        destruct Hcase as [(-> & Hlen & Hres) | (-> & Hlen & Hres)].
        -- left. split; [done|]. split; [simpl; lia|].
           rewrite Hres, last_cons. by destruct (last errs).
        -- right. split; [done|]. split; [simpl; lia | done].
      * exists [], [EvGet u cfg (inl err)]. split; [done|].
        split; [constructor|]. right. simpl. split; [done|]. split; [lia | done].
    + exists [], [EvGet u cfg (inr res)]. split; [done|].
      split; [constructor|]. right. simpl. split; [done|]. split; [lia | done].
Qed.

Lemma count_app p tr1 tr2 : count p (tr1 ++ tr2) = (count p tr1 + count p tr2)%nat.
Proof. unfold count. by rewrite List.filter_app, length_app. Qed.

Lemma total_delay_app site tr1 tr2 :
  total_delay site (tr1 ++ tr2) = total_delay site tr1 + total_delay site tr2.
Proof. induction tr1 as [|ev tr1 IH]; simpl; [done|]. rewrite IH. lia. Qed.

Lemma failed_attempts_measures u cfg errs :
  let tr := flat_map (failed_attempt u cfg) errs in
  count is_get tr = length errs /\
  count (is_sleep Backoff) tr = length errs /\
  total_delay Backoff tr = 2000 * Z.of_nat (length errs).
Proof.
  induction errs as [|e errs IH]; [done|].
  cbn zeta in *. destruct IH as (Hg & Hs & Hd).
  unfold count in *. simpl. rewrite Hg, Hs, Hd. repeat split; lia.
Qed.

Lemma transient_elem err :
  transient err = true <->
  axios_isAxiosError err = true /\ code_of err ∈ TRANSIENT.
Proof.
  rewrite transient_spec. unfold TRANSIENT.
  rewrite !elem_of_cons, elem_of_nil. tauto.
Qed.

(** C2, amended: with a cap of at least 1, [retryableGet] makes between 1
    and [retries] attempts at the same URL and configuration.  Each
    attempt but possibly the last failed with an axios error whose code is
    ECONNABORTED, ECONNRESET or ETIMEDOUT and is followed by one backoff
    of 2000 ms.  Either the cap is reached by such failures, and the call
    throws the error of the last attempt after a backoff that follows it
    too, or a last attempt succeeds or fails otherwise, ends the trace
    with no wait after it, and its outcome is the outcome of the call.
    The backoffs are as many as the transient failures: at most
    [retries], not [retries - 1]. *)
Theorem retryableGet_attempts_and_backoffs w st u cfg retries :
  1 <= retries ->
  let tr := emitted w (retryableGet u cfg retries) st in
  let r := (run w (retryableGet u cfg retries) st).1 in
  exists (errs : list Thrown) (final : list Event),
    tr = flat_map (failed_attempt u cfg) errs ++ final /\
    Forall (fun e => axios_isAxiosError e = true /\ code_of e ∈ TRANSIENT) errs /\
    ((final = [] /\ Z.of_nat (length errs) = retries /\
      exists e, last errs = Some e /\ r = inl e)
     \/
     (final = [EvGet u cfg r] /\ Z.of_nat (length errs) < retries /\
      is_transient_failure r = false)) /\
    (1 <= count is_get tr)%nat /\
    Z.of_nat (count is_get tr) <= retries /\
    count (is_sleep Backoff) tr = length errs /\
    Z.of_nat (count (is_sleep Backoff) tr) <= retries /\
    total_delay Backoff tr = 2000 * Z.of_nat (count (is_sleep Backoff) tr).
Proof.
  intros Hpos. cbn zeta. unfold retryableGet.
  destruct (retry_loop_shape w (Z.to_nat retries) u cfg TNull st)
    as (errs & final & Hem & Hall & Hcase).
  destruct (failed_attempts_measures u cfg errs) as (Hg & Hs & Hd).
  exists errs, final. rewrite Hem, !count_app, total_delay_app, Hg, Hs, Hd.
  split; [done|]. split.
  { eapply Forall_impl; [exact Hall|]. intros e He. by apply transient_elem. }
  destruct Hcase as [(-> & Hlen & Hres) | (-> & Hlen & Hres)].
  - split.
    { left. split; [done|]. split; [lia|].
      destruct (last errs) as [e|] eqn:Hlast.
      - exists e. by rewrite Hres.
      - apply last_None in Hlast. subst errs. simpl in Hlen. lia. }
    unfold count. simpl. repeat split; lia.
  - split.
    { right. split; [done|]. split; [lia | done]. }
    unfold count. simpl. repeat split; lia.
Qed.

(** A cap of -2 in a world where every request times out. *)
Lemma retryableGet_nonpositive_throws_null_witness :
  -2 <= 0 /\
  run Sample.always_timeout
      (retryableGet (Sample.page "") Sample.cfg_id (-2)) Sample.state0
  = (inl TNull, Sample.state0).
Proof.
  split; [lia|]. apply retryableGet_nonpositive_throws_null. lia.
Defined.

(** A cap of 3 in a world that resets the connection twice and then
    answers. *)
Lemma retryableGet_attempts_and_backoffs_witness :
  1 <= 3 /\
  let tr := emitted Sample.flaky (retryableGet (Sample.page "") Sample.cfg_id 3)
              Sample.state0 in
  let r := (run Sample.flaky (retryableGet (Sample.page "") Sample.cfg_id 3)
              Sample.state0).1 in
  exists (errs : list Thrown) (final : list Event),
    tr = flat_map (failed_attempt (Sample.page "") Sample.cfg_id) errs ++ final /\
    Forall (fun e => axios_isAxiosError e = true /\ code_of e ∈ TRANSIENT) errs /\
    ((final = [] /\ Z.of_nat (length errs) = 3 /\
      exists e, last errs = Some e /\ r = inl e)
     \/
     (final = [EvGet (Sample.page "") Sample.cfg_id r] /\
      Z.of_nat (length errs) < 3 /\
      is_transient_failure r = false)) /\
    (1 <= count is_get tr)%nat /\
    Z.of_nat (count is_get tr) <= 3 /\
    count (is_sleep Backoff) tr = length errs /\
    Z.of_nat (count (is_sleep Backoff) tr) <= 3 /\
    total_delay Backoff tr = 2000 * Z.of_nat (count (is_sleep Backoff) tr).
Proof.
  split; [lia|].
  apply (retryableGet_attempts_and_backoffs Sample.flaky Sample.state0
           (Sample.page "") Sample.cfg_id 3).
  lia.
Defined.

(** C2 as stated fails: with a cap of 1 and a timeout, the single attempt
    is followed by a backoff, one more than [retries - 1 = 0]. *)
Lemma retryableGet_backoff_after_last_attempt :
  let tr := emitted Sample.always_timeout
              (retryableGet (Sample.page "") Sample.cfg_id 1) Sample.state0 in
  count is_get tr = 1%nat /\
  count (is_sleep Backoff) tr = 1%nat /\
  total_delay Backoff tr = 2000 /\
  ~ (Z.of_nat (count (is_sleep Backoff) tr) <= 1 - 1).
Proof. vm_compute. repeat split; try reflexivity. intros H; apply H; reflexivity. Qed.

(** ** Tasks that leave the logger alone and tasks that never throw *)

Lemma run_keeps_logger {A} w (t : Task A) st :
  ops_all no_logger_set t -> logger (run w t st).2 = logger st.
Proof.
  intros Hops.
  apply (run_ops_all w no_logger_set (fun s => logger s = logger st) t st);
    [|done..].
  intros X op s Hop <-. by destruct op.
Qed.

Lemma retry_loop_ops (P : forall X, Op X -> Prop) n u cfg le :
  P _ (AxiosGet u cfg) -> P _ (Sleep Backoff 2000) ->
  ops_all P (retry_loop n u cfg le).
Proof.
  intros Hget Hsleep. revert le. induction n as [|n IH]; intros le; simpl; [done|].
  split; [done|]. intros [err|res]; simpl; [|done].
  destruct (transient err); simpl; [|done]. split; [done|]. intros _. apply IH.
Qed.

Lemma purgeCloudflareCache_ops env (P : forall X, Op X -> Prop) u :
  P _ (PurgeCalled u) ->
  (forall url cfg, P _ (AxiosPost url (JObj [("files", JArr [u])]) cfg)) ->
  (forall text, P _ (Console LWarn text)) ->
  ops_all P (purgeCloudflareCache env u).
Proof.
  intros Hcall Hpost Hwarn. unfold purgeCloudflareCache. simpl.
  split; [done|]. intros _.
  destruct (negb (env_truthy (CLOUDFLARE_ZONE_ID env))
            || negb (env_truthy (CLOUDFLARE_API_TOKEN env))); simpl; [done|].
  split; [done|]. intros [err|res]; simpl.
  - split; [done|]. done.
  - destruct (negb (truthy (opt_prop (res_data res) "success"))); simpl; [|done].
    split; [done|]. done.
Qed.



Lemma warm_get_ops env (P : forall X, Op X -> Prop) country u :
  (forall cfg, P _ (AxiosGet u cfg)) -> P _ (Sleep Backoff 2000) ->
  ops_all P (warm_get env country u).
Proof.
  intros Hget Hsleep. unfold warm_get.
  destruct (buildAxiosCfg env country (Some 15000)) as [e|cfg]; [done|].
  by apply retry_loop_ops.
Qed.

Lemma purgeCloudflareCache_ok env u :
  leaves_all (fun r => r = inr tt) (purgeCloudflareCache env u).
Proof.
  unfold purgeCloudflareCache. simpl. intros _.
  destruct (negb (env_truthy (CLOUDFLARE_ZONE_ID env))
            || negb (env_truthy (CLOUDFLARE_API_TOKEN env))); simpl; [done|].
  intros [err|res]; simpl; [done|].
  destruct (negb (truthy (opt_prop (res_data res) "success"))); simpl; done.
Qed.

(** The function mapped over a batch never rejects. *)
Lemma warm_one_ok env country u :
  leaves_all (fun r => r = inr tt) (warm_one env country u).
Proof.
  unfold warm_one. cbn [bind act leaves_all]. intros t0.
  unfold try_catch. apply leaves_all_bind. unfold bindE. apply leaves_all_bind.
  eapply leaves_all_mono; [|apply leaves_all_True].
  intros [err|res] _.
  - cbn. done.
  - cbn [bind act leaves_all]. intros t1 _ _.
    destruct (not_hit (header_or_NA res "x-litespeed-cache")).
    + eapply leaves_all_mono; [|apply purgeCloudflareCache_ok].
      intros r ->. done.
    + done.
Qed.

(** *** One URL, run on its own *)

Lemma run_warm_one env w st country u :
  let t0 := clock w (tick st) in
  let fetch := run w (warm_get env country u) (perform w DateNow st).2 in
  let logged (a : LogArgs) :=
    (perform w (LoggerSet (log a))
       (perform w (Console (match fetch.1 with inl _ => LWarn | inr _ => LLog end)
                           (match fetch.1 with
                            | inl _ => "Failed to warm"
                            | inr _ => "warmed"
                            end))
          (perform w DateNow fetch.2).2).2).2 in
  let dt := clock w (tick fetch.2) - t0 in
  run w (warm_one env country u) st =
  match fetch.1 with
  | inr res =>
      if not_hit (header_or_NA res "x-litespeed-cache")
      then run w (purgeCloudflareCache env u) (logged (success_args u res dt))
      else (inr tt, logged (success_args u res dt))
  | inl err => (inr tt, logged (failure_args country u err dt))
  end.
Proof.
  cbn zeta. unfold warm_one. cbn [run bind act]. rewrite run_try_catch, run_bindE.
  cbn [fst snd].
  destruct (run w (warm_get env country u) _) as [[err|res] st2]; cbn [fst snd].
  - reflexivity.
  - cbn [run bind act fst snd].
    destruct (not_hit (header_or_NA res "x-litespeed-cache")).
    + match goal with |- context [run w (purgeCloudflareCache env u) ?s] =>
        pose proof (run_leaves_all w _ _ s (purgeCloudflareCache_ok env u)) as Hok;
        destruct (run w (purgeCloudflareCache env u) s) as [r st4] eqn:Hrun end.
      simpl in Hok. subst r. cbn [fst snd]. symmetry. exact Hrun.
    + reflexivity.
Qed.

(** ** The country of a row *)





(** With a single hyphen in the header both tokens are the same. *)
Lemma edge_token_single_hyphen s t :
  after_first_hyphen s = Some t -> includes_hyphen t = false ->
  edge_token (Some s) = token_after_first_hyphen (Some s).
Proof.
  intros Hs Ht. unfold edge_token, token_after_first_hyphen. rewrite Hs.
  f_equal. clear Hs. induction t as [|c rest IH]; simpl in *; [done|].
  destruct (Ascii.eqb c hyphen); [done|]. by rewrite IH.
Qed.

Lemma retryableGet_keeps_logger w u cfg n st :
  logger (run w (retryableGet u cfg n) st).2 = logger st.
Proof. apply run_keeps_logger, retry_loop_ops; exact I. Qed.




(** *** The rows of a whole run *)

Lemma run_logs {A} w G (t : Task A) st :
  ops_all (logs G) t ->
  exists new,
    rows (logger (run w t st).2) = rows (logger st) ++ new /\
    Forall (fun row => exists a this, G a /\ row = row_of a this) new.
Proof.
  intros Hops.
  apply (run_ops_all w (logs G)
           (fun s => exists new,
              rows (logger s) = rows (logger st) ++ new /\
              Forall (fun row => exists a this, G a /\ row = row_of a this) new)
           t st); [|done|].
  - intros X op s Hop (new & Hrows & Hnew). destruct op; try by exists new.
    destruct Hop as (a & Ha & ->). simpl. rewrite Hrows, <- app_assoc.
    eexists. split; [reflexivity|]. apply Forall_app. split; [done|].
    constructor; [|constructor]. by exists a, (logger s).
  - exists []. by rewrite app_nil_r.
Qed.

Lemma warm_one_logs env country u :
  ops_all (logs (warm_args country)) (warm_one env country u).
Proof.
  unfold warm_one. cbn [bind act ops_all]. split; [done|]. intros t0.
  apply ops_all_try_catch.
  - apply ops_all_bindE; [by apply warm_get_ops|].
    intros res. cbn [bind act ops_all]. split; [done|]. intros t1.
    split; [done|]. intros _. split.
    { eexists. split; [|reflexivity]. left. by eexists _, _, _. }
    intros _. destruct (not_hit _); [|done]. by apply purgeCloudflareCache_ops.
  - intros err. cbn [bind act ops_all]. split; [done|]. intros t1.
    split; [done|]. intros _. split; [|done].
    eexists. split; [|reflexivity]. right. by eexists _, _, _.
Qed.

Lemma warm_batches_logs env country bs delay :
  ops_all (logs (warm_args country)) (warm_batches env country bs delay).
Proof.
  induction bs as [|b bs IH]; [done|]. cbn [warm_batches].
  apply ops_all_bindE.
  - apply ops_all_Promise_all; [done|]. apply List.Forall_forall. intros t Hin.
    apply in_map_iff in Hin as [u [<- _]]. apply warm_one_logs.
  - intros _. cbn [bind act ops_all]. split; [done|]. intros _. exact IH.
Qed.




Example edge_token_SIN : edge_token (Some "abcd-SIN") = JStr "SIN".
Proof. reflexivity. Qed.

(** ** The purge decision *)

Lemma lower_char_h c : Ascii.eqb (lower_char c) "h" = one_of c "h" "H".
Proof. destruct c as [[] [] [] [] [] [] [] []]; reflexivity. Qed.
Lemma lower_char_i c : Ascii.eqb (lower_char c) "i" = one_of c "i" "I".
Proof. destruct c as [[] [] [] [] [] [] [] []]; reflexivity. Qed.
Lemma lower_char_t c : Ascii.eqb (lower_char c) "t" = one_of c "t" "T".
Proof. destruct c as [[] [] [] [] [] [] [] []]; reflexivity. Qed.

Lemma toLowerCase_hit s :
  String.eqb (toLowerCase s) "hit" = eq_ignore_case_hit s.
Proof.
  destruct s as [|c1 [|c2 [|c3 [|c4 rest]]]]; simpl;
    rewrite ?lower_char_h; try reflexivity;
    destruct (one_of c1 "h" "H"); simpl; try reflexivity;
    rewrite ?lower_char_i; destruct (one_of c2 "i" "I"); simpl; try reflexivity;
    rewrite ?lower_char_t; destruct (one_of c3 "t" "T"); reflexivity.
Qed.

Example eq_ignore_case_hit_examples :
  eq_ignore_case_hit "HIT" = true /\ eq_ignore_case_hit "Hit" = true /\
  eq_ignore_case_hit "hit" = true /\ eq_ignore_case_hit "miss" = false /\
  eq_ignore_case_hit "hit " = false /\ eq_ignore_case_hit "" = false.
Proof. repeat split. Qed.

Lemma not_hit_header res :
  not_hit (header_or_NA res "x-litespeed-cache") = negb (ls_hit res).
Proof.
  unfold not_hit, header_or_NA, ls_hit. rewrite toLowerCase_hit.
  destruct (res_headers res !! "x-litespeed-cache") as [s|]; [|done].
  by destruct (String.eqb_spec s "") as [->|Hne].
Qed.

Lemma emitted_purgeCloudflareCache env w u st :
  emitted w (purgeCloudflareCache env u) st =
  EvPurgeCalled u ::
  if purge_enabled env then
    let r := http_post w (S (tick st)) (purge_url env) (purge_body u)
               (purge_cfg env) in
    EvPost (purge_url env) (purge_body u) (purge_cfg env) r ::
    match r with
    | inl _ => [EvConsole LWarn "Error purging Cloudflare"]
    | inr res =>
        if truthy (opt_prop (res_data res) "success") then []
        else [EvConsole LWarn "Failed to purge Cloudflare"]
    end
  else [].
Proof.
  unfold purgeCloudflareCache, purge_enabled, ok. cbn [bind act].
  rewrite emitted_Act. cbn [op_events]. f_equal.
  destruct (env_truthy (CLOUDFLARE_ZONE_ID env)),
           (env_truthy (CLOUDFLARE_API_TOKEN env)); cbn [negb orb andb];
    try apply emitted_Ret.
  unfold try_catch, bindE, ok. cbn [bind act]. rewrite emitted_Act.
  cbn [op_events answer perform snd tick]. unfold purge_url, purge_body, purge_cfg.
  cbn zeta. f_equal.
  destruct (http_post w (S (tick st)) _ _ _) as [err|res]; cbn [bind].
  - rewrite emitted_Act. cbn [op_events]. by rewrite emitted_Ret.
  - destruct (truthy (opt_prop (res_data res) "success")); cbn [negb bind act].
    + by rewrite emitted_Ret.
    + rewrite emitted_Act. cbn [op_events]. by rewrite emitted_Ret.
Qed.

Lemma trace_perform {X} w (op : Op X) st :
  trace (perform w op st).2 = trace st ++ op_events op (answer w op st).
Proof. reflexivity. Qed.

Lemma emitted_warm_one env w st country u :
  let st1 := (perform w DateNow st).2 in
  let fetch := run w (warm_get env country u) st1 in
  exists st3,
    emitted w (warm_one env country u) st =
    emitted w (warm_get env country u) st1 ++
    match fetch.1 with
    | inr res =>
        EvConsole LLog "warmed" ::
        if not_hit (header_or_NA res "x-litespeed-cache")
        then emitted w (purgeCloudflareCache env u) st3
        else []
    | inl _ => [EvConsole LWarn "Failed to warm"]
    end.
Proof.
  cbn zeta. unfold emitted at 1. rewrite run_warm_one. cbn zeta.
  pose proof (trace_run w (warm_get env country u) (perform w DateNow st).2)
    as Htr.
  rewrite trace_perform in Htr. cbn [op_events] in Htr. rewrite app_nil_r in Htr.
  destruct (run w (warm_get env country u) _) as [[err|res] st2];
    cbn [fst snd] in *.
  - exists st. rewrite !trace_perform, Htr. cbn [op_events].
    rewrite !app_nil_r, <- !app_assoc, drop_app_length. reflexivity.
  - eexists. destruct (not_hit _).
    + rewrite trace_run, !trace_perform, Htr. cbn [op_events].
      rewrite !app_nil_r, <- !app_assoc, drop_app_length. reflexivity.
    + cbn [snd]. rewrite !trace_perform, Htr. cbn [op_events].
      rewrite !app_nil_r, <- !app_assoc, drop_app_length. reflexivity.
Qed.

Lemma filter_failed_attempts (p : Event -> bool) u cfg errs :
  (forall r, p (EvGet u cfg r) = false) -> p (EvSleep Backoff 2000) = false ->
  List.filter p (flat_map (failed_attempt u cfg) errs) = [].
Proof.
  intros Hg Hs. induction errs as [|e errs IH]; simpl; [done|].
  by rewrite Hg, Hs.
Qed.

Lemma filter_emitted_retryableGet (p : Event -> bool) w u cfg n st :
  (forall r, p (EvGet u cfg r) = false) -> p (EvSleep Backoff 2000) = false ->
  List.filter p (emitted w (retryableGet u cfg n) st) = [].
Proof.
  intros Hg Hs. unfold retryableGet.
  destruct (retry_loop_shape w (Z.to_nat n) u cfg TNull st)
    as (errs & final & -> & _ & [(-> & _) | (-> & _)]);
    rewrite List.filter_app, filter_failed_attempts by done; simpl; [done|].
  by rewrite Hg.
Qed.

Lemma filter_emitted_warm_get (p : Event -> bool) env w country u st :
  (forall cfg r, p (EvGet u cfg r) = false) -> p (EvSleep Backoff 2000) = false ->
  List.filter p (emitted w (warm_get env country u) st) = [].
Proof.
  intros Hg Hs. unfold warm_get.
  destruct (buildAxiosCfg env country (Some 15000)) as [e|cfg].
  - cbn [bindE bind]. by rewrite emitted_Ret.
  - cbn [bindE bind]. by apply filter_emitted_retryableGet.
Qed.

(** The purge calls and the POSTs of one URL run on its own. *)
Lemma warm_one_purge_calls env w st country u :
  let fetch := (run w (warm_get env country u) (perform w DateNow st).2).1 in
  let tr := emitted w (warm_one env country u) st in
  List.filter is_purge_call tr =
    match fetch with
    | inr res => if ls_hit res then [] else [EvPurgeCalled u]
    | inl _ => []
    end /\
  count is_post tr =
    match fetch with
    | inr res => if ls_hit res || negb (purge_enabled env) then 0%nat else 1%nat
    | inl _ => 0%nat
    end.
Proof.
  cbn zeta. destruct (emitted_warm_one env w st country u) as [st3 Hem].
  cbn zeta in Hem. rewrite Hem. clear Hem. unfold count.
  rewrite !List.filter_app, !filter_emitted_warm_get by done.
  destruct (run w (warm_get env country u) _).1 as [err|res]; [done|].
  rewrite not_hit_header. destruct (ls_hit res); [done|].
  cbn [negb orb]. rewrite emitted_purgeCloudflareCache.
  destruct (purge_enabled env); [|done]. cbn zeta.
  destruct (http_post w _ _ _ _) as [e|r]; [done|].
  by destruct (truthy _).
Qed.

(** ** Sums over the paths of a task *)

Lemma sum_events_app m tr1 tr2 :
  sum_events m (tr1 ++ tr2) = sum_events m tr1 + sum_events m tr2.
Proof. induction tr1 as [|ev tr1 IH]; simpl; [done|]. rewrite IH. lia. Qed.

Lemma paths_sum_mono {A} m (t : Task A) acc (Q R : Z -> A -> Prop) :
  (forall z a, Q z a -> R z a) -> paths_sum m t acc Q -> paths_sum m t acc R.
Proof.
  intros HQR. revert acc. induction t as [a | X op k IH]; intros acc; simpl.
  - apply HQR.
  - intros Hk x. apply IH, Hk.
Qed.

Lemma paths_sum_shift {A} m (t : Task A) acc d (Q : Z -> A -> Prop) :
  paths_sum m t acc (fun z a => Q (z + d) a) -> paths_sum m t (acc + d) Q.
Proof.
  revert acc. induction t as [a | X op k IH]; intros acc; simpl; [done|].
  intros Hk x.
  replace (acc + d + sum_events m (op_events op x))
    with (acc + sum_events m (op_events op x) + d) by lia.
  apply IH, Hk.
Qed.

Lemma paths_sum_bind {A B} m (t : Task A) (f : A -> Task B) acc
    (Q : Z -> B -> Prop) :
  paths_sum m t acc (fun z a => paths_sum m (f a) z Q) ->
  paths_sum m (bind t f) acc Q.
Proof.
  revert acc. induction t as [a | X op k IH]; intros acc; simpl; [done|].
  intros Hk x. apply IH, Hk.
Qed.

Lemma paths_sum_par {A B} m (t1 : Task A) (t2 : Task B) a1 a2
    (Q1 : Z -> A -> Prop) (Q2 : Z -> B -> Prop) :
  paths_sum m t1 a1 Q1 -> paths_sum m t2 a2 Q2 ->
  paths_sum m (par t1 t2) (a1 + a2)
    (fun z p => exists z1 z2, z = z1 + z2 /\ Q1 z1 p.1 /\ Q2 z2 p.2).
Proof.
  revert t2 a1 a2. induction t1 as [a | X op1 k1 IH1]; intros t2 a1 a2 H1 H2.
  - rewrite par_Ret. apply paths_sum_bind. simpl in H1.
    replace (a1 + a2) with (a2 + a1) by lia. apply paths_sum_shift.
    eapply paths_sum_mono; [|exact H2]. simpl.
    intros z b Hb. exists a1, z. split; [lia | done].
  - revert a2 H2. induction t2 as [b | Y op2 k2 IH2]; intros a2 H2.
    + rewrite par_Act_Ret. simpl. intros x.
      replace (a1 + a2 + sum_events m (op_events op1 x))
        with (a1 + sum_events m (op_events op1 x) + a2) by lia.
      apply IH1; [apply H1 | exact H2].
    + rewrite par_Act_Act. simpl. intros [|].
      * intros x.
        replace (a1 + a2 + 0 + sum_events m (op_events op1 x))
          with (a1 + sum_events m (op_events op1 x) + a2) by lia.
        apply IH1; [apply H1 | exact H2].
      * intros y.
        replace (a1 + a2 + 0 + sum_events m (op_events op2 y))
          with (a1 + (a2 + sum_events m (op_events op2 y))) by lia.
        apply IH2, H2.
Qed.

Lemma run_paths_sum {A} w m (t : Task A) acc (Q : Z -> A -> Prop) st :
  paths_sum m t acc Q ->
  Q (acc + sum_events m (emitted w t st)) (run w t st).1.
Proof.
  revert acc st. induction t as [a | X op k IH]; intros acc st; simpl.
  - rewrite emitted_Ret. simpl. by rewrite Z.add_0_r.
  - intros Hk. rewrite emitted_Act, sum_events_app, Z.add_assoc. apply IH, Hk.
Qed.

Lemma silent_all_settled {A} m (ts : list (Task A)) :
  Forall (silent m) ts -> silent m (all_settled ts).
Proof.
  intros Hts. induction Hts as [| t rest Ht _ IH]; [done|].
  cbn [all_settled]. apply paths_sum_bind.
  eapply paths_sum_mono; [|exact (paths_sum_par m _ _ 0 0 _ _ Ht IH)].
  simpl. intros z p (z1 & z2 & -> & -> & ->). reflexivity.
Qed.

Lemma silent_Promise_all {A} m (ts : list (Task (Thrown + A))) :
  Forall (silent m) ts -> silent m (Promise_all ts).
Proof.
  intros Hts. apply paths_sum_bind.
  eapply paths_sum_mono; [|exact (silent_all_settled m ts Hts)]. done.
Qed.

(** ** Purges against cold answers, over a whole run *)

Lemma sum_balance sel tr :
  sum_events (balance sel) tr =
  Z.of_nat (count (is_purge_of sel) tr) - Z.of_nat (count (is_cold_answer sel) tr).
Proof.
  unfold count. induction tr as [|ev tr IH]; simpl; [done|].
  rewrite IH. unfold balance.
  destruct (is_purge_of sel ev), (is_cold_answer sel ev); simpl; lia.
Qed.

Lemma retry_loop_balance sel n u cfg le acc :
  paths_sum (balance sel) (retry_loop n u cfg le) acc
    (fun z r => z = acc - match r with
                          | inr res => if sel u && negb (ls_hit res) then 1 else 0
                          | inl _ => 0
                          end).
Proof.
  revert le acc. induction n as [|n IH]; intros le acc; simpl; [lia|].
  intros [err|res]; simpl.
  - destruct (transient err); simpl.
    + intros _. eapply paths_sum_mono; [|apply IH]. simpl. intros z r ->.
      unfold balance. simpl. lia.
    + unfold balance. simpl. lia.
  - unfold balance. simpl. destruct (sel u && negb (ls_hit res)); lia.
Qed.

Lemma warm_get_balance env sel country u acc :
  paths_sum (balance sel) (warm_get env country u) acc
    (fun z r => z = acc - match r with
                          | inr res => if sel u && negb (ls_hit res) then 1 else 0
                          | inl _ => 0
                          end).
Proof.
  unfold warm_get.
  destruct (buildAxiosCfg env country (Some 15000)) as [e|cfg];
    [simpl; lia | apply retry_loop_balance].
Qed.

Lemma purgeCloudflareCache_balance env sel u acc :
  paths_sum (balance sel) (purgeCloudflareCache env u) acc
    (fun z r => z = acc + (if sel u then 1 else 0) /\ r = inr tt).
Proof.
  unfold purgeCloudflareCache. simpl. intros _.
  destruct (negb (env_truthy (CLOUDFLARE_ZONE_ID env))
            || negb (env_truthy (CLOUDFLARE_API_TOKEN env))); simpl.
  - unfold balance. simpl. destruct (sel u); split; (lia || done).
  - intros [err|res]; simpl.
    + intros _. unfold balance. simpl. destruct (sel u); split; (lia || done).
    + destruct (negb (truthy (opt_prop (res_data res) "success"))); simpl.
      * intros _. unfold balance. simpl. destruct (sel u); split; (lia || done).
      * unfold balance. simpl. destruct (sel u); split; (lia || done).
Qed.

Lemma warm_one_balance env sel country u :
  silent (balance sel) (warm_one env country u).
Proof.
  unfold silent, warm_one. cbn [bind act paths_sum op_events sum_events].
  intros t0. unfold try_catch. apply paths_sum_bind.
  unfold bindE. apply paths_sum_bind.
  eapply paths_sum_mono; [|apply warm_get_balance].
  intros z [err|res] ->.
  - simpl. unfold balance. simpl. intros; lia.
  - cbn [bind act paths_sum op_events sum_events]. intros t1 _ _.
    rewrite not_hit_header. unfold balance at 1 2. cbn [is_purge_of is_cold_answer].
    destruct (ls_hit res); cbn [negb].
    + rewrite andb_false_r. simpl. lia.
    + rewrite andb_true_r.
      eapply paths_sum_mono; [|apply purgeCloudflareCache_balance].
      simpl. intros z r [-> ->]. simpl. destruct (sel u); lia.
Qed.

Lemma warm_batches_balance env sel country bs delay :
  silent (balance sel) (warm_batches env country bs delay).
Proof.
  unfold silent. induction bs as [|b bs IH]; [done|].
  cbn [warm_batches]. unfold bindE. apply paths_sum_bind.
  eapply paths_sum_mono;
    [|apply (silent_Promise_all (balance sel)
               (List.map (warm_one env country) b))].
  - intros z [e|l] ->; simpl; [done|]. intros _. exact IH.
  - apply List.Forall_forall. intros t Hin.
    apply in_map_iff in Hin as [u [<- _]]. apply warm_one_balance.
Qed.

(** In a run of [warmUrls], whatever the interleaving of the tasks of a
    batch, the purge calls for the selected URLs are as many as their
    cold answers. *)
Lemma warmUrls_purges_cold_answers env w st sel urls country batchSize delay :
  let tr := emitted w (warmUrls env urls country batchSize delay) st in
  count (is_purge_of sel) tr = count (is_cold_answer sel) tr.
Proof.
  cbn zeta.
  pose proof (run_paths_sum w _ _ 0 _ st
    (warm_batches_balance env sel country (batches urls batchSize) delay)) as H.
  cbn beta in H. unfold warmUrls. rewrite sum_balance in H. lia.
Qed.

(** C3: when the fetch of a URL succeeded, [warm_one] enters
    [purgeCloudflareCache] not at all if the [x-litespeed-cache] header of
    the response reads [hit] up to case, and exactly once, for that URL, in
    every other case, the absent header included; a failed fetch is never
    followed by a purge.  With the CDN credentials set, that one call is
    one POST to the purge endpoint, and there is no other POST.  Over a
    whole run of [warmUrls], whatever the interleaving inside the batches,
    the purge calls for any set of URLs are as many as the answers to
    their requests that were not a hit. *)
Theorem purge_called_unless_hit env w st country u urls batchSize delay sel :
  let fetch := (run w (warm_get env country u) (perform w DateNow st).2).1 in
  let tr := emitted w (warm_one env country u) st in
  let run_tr := emitted w (warmUrls env urls country batchSize delay) st in
  List.filter is_purge_call tr =
    match fetch with
    | inr res => if ls_hit res then [] else [EvPurgeCalled u]
    | inl _ => []
    end /\
  count is_post tr =
    match fetch with
    | inr res => if ls_hit res || negb (purge_enabled env) then 0%nat else 1%nat
    | inl _ => 0%nat
    end /\
  count (is_purge_of sel) run_tr = count (is_cold_answer sel) run_tr.
Proof.
  cbn zeta. destruct (warm_one_purge_calls env w st country u) as [Hcalls Hposts].
  split; [exact Hcalls|]. split; [exact Hposts|].
  apply warmUrls_purges_cold_answers.
Qed.

(** ** Batches *)







(** ** Measures of the operations of a path *)

Section PathsOps.

Context (m : forall X, Op X -> X -> Z).






End PathsOps.







(** ** The events of a batch *)

Lemma emitted_ops_all {A} w (Q : Event -> Prop) (t : Task A) st :
  ops_all (emits Q) t -> Forall Q (emitted w t st).
Proof.
  revert st. induction t as [a | X op k IH]; intros st; simpl.
  - intros _. rewrite emitted_Ret. constructor.
  - intros [Hop Hk]. rewrite emitted_Act. apply Forall_app. split; [apply Hop|].
    apply IH, Hk.
Qed.










Lemma Promise_all_ok {A} (ts : list (Task (Thrown + A))) :
  Forall (leaves_all (fun r => exists a, r = inr a)) ts ->
  leaves_all (fun r => exists l, r = inr l) (Promise_all ts).
Proof.
  intros Hts. unfold Promise_all. apply leaves_all_bind.
  eapply leaves_all_mono; [|exact (leaves_all_all_settled _ ts Hts)].
  simpl. intros rs [Hrs _]. clear Hts.
  induction Hrs as [|r rs [a ->] _ [l IH]]; simpl; [by eexists|].
  rewrite IH. by eexists.
Qed.






(** A proxy the agent refuses: the page is reported as failed in its
    batch and never requested. *)
Example warmUrls_refused_proxy :
  let t := warmUrls Sample.env_bad_proxy [Sample.page ""] "id" 1 2000 in
  emitted (Sample.always_answers []) t Sample.state0
    = [EvConsole LWarn "Failed to warm"; EvSleep InterBatch 2000] /\
  List.map (fun r => (js_get r ERROR, js_get r MESSAGE))
    (rows (logger (run (Sample.always_answers []) t Sample.state0).2))
    = [(JNum 1, JStr "Invalid URL")].
Proof. vm_compute. done. Qed.

(** ** Sitemaps *)



(** *** Nothing rejects *)

Lemma leaves_all_try_catch {A} (R : Thrown + A -> Prop)
    (body : Task (Thrown + A)) handler :
  leaves_all (fun r => match r with
                       | inl e => leaves_all R (handler e)
                       | inr a => R (inr a)
                       end) body ->
  leaves_all R (try_catch body handler).
Proof.
  intros Hb. unfold try_catch. apply leaves_all_bind.
  eapply leaves_all_mono; [|exact Hb]. by intros [e|a].
Qed.

Lemma fetchIndexSitemaps_ok env domain country :
  leaves_all resolves (fetchIndexSitemaps env domain country).
Proof.
  apply leaves_all_try_catch.
  eapply leaves_all_mono; [|apply leaves_all_True].
  intros [e|l] _; simpl; by eexists.
Qed.

(** The tasks that fetch the child sitemaps never reject. *)
Lemma fetchUrlsFromSitemap_ok env s country :
  leaves_all resolves (fetchUrlsFromSitemap env s country).
Proof.
  apply leaves_all_try_catch.
  eapply leaves_all_mono; [|apply leaves_all_True].
  intros [e|l] _; simpl; by eexists.
Qed.

Lemma leaves_all_bindE {A B} (R : Thrown + B -> Prop)
    (t : Task (Thrown + A)) (f : A -> Task (Thrown + B)) :
  leaves_all resolves t -> (forall a, leaves_all R (f a)) ->
  leaves_all R (bindE t f).
Proof.
  intros Ht Hf. unfold bindE. apply leaves_all_bind.
  eapply leaves_all_mono; [|exact Ht]. intros r [a ->]. apply Hf.
Qed.

Lemma resolve_ok env domain country :
  leaves_all resolves (resolve env domain country).
Proof.
  unfold resolve. apply leaves_all_bindE; [apply fetchIndexSitemaps_ok|].
  intros sitemapList. apply leaves_all_bindE.
  - apply Promise_all_ok. apply List.Forall_forall. intros t Hin.
    apply in_map_iff in Hin as [s [<- _]]. apply fetchUrlsFromSitemap_ok.
  - intros urlArrays. by eexists.
Qed.

Lemma warm_batches_ok env country bs delay :
  leaves_all (fun r => r = inr tt) (warm_batches env country bs delay).
Proof.
  induction bs as [|b bs IH]; [done|]. cbn [warm_batches].
  apply leaves_all_bindE.
  - apply Promise_all_ok. apply List.Forall_forall. intros t Hin.
    apply in_map_iff in Hin as [u [<- _]].
    eapply leaves_all_mono; [|apply warm_one_ok]. intros r ->. by eexists.
  - intros _. cbn [bind act leaves_all]. intros _. exact IH.
Qed.

(** The tasks [main] runs for the domains never reject. *)
Lemma domain_task_ok env entry :
  leaves_all (fun r => r = inr tt) (domain_task env entry).
Proof.
  unfold domain_task. apply leaves_all_bindE; [apply resolve_ok|].
  intros urls. cbn [bind act leaves_all]. intros _ _. apply warm_batches_ok.
Qed.

Lemma flush_ok env : leaves_all (fun r => r = inr tt) (flush env).
Proof.
  unfold flush. cbn [bind act leaves_all]. intros this.
  destruct (_ || _); [done|]. apply leaves_all_try_catch. simpl.
  intros [e|res]; simpl; done.
Qed.


(** *** What the sitemap requests do to the logger and the trace *)

Lemma fetchIndexSitemaps_ops env (P : forall X, Op X -> Prop) domain country :
  (forall u cfg, P _ (AxiosGet u cfg)) -> (forall xml, P _ (ParseString xml)) ->
  ops_all P (fetchIndexSitemaps env domain country).
Proof.
  intros Hget Hparse.
  unfold fetchIndexSitemaps, fetchWithProxy, try_catch, bindE, ok.
  destruct (buildAxiosCfg env country (Some 15000)) as [e0|cfg]; [done|]. simpl.
  split; [done|]. intros [e|res]; simpl; [done|].
  split; [done|]. intros [e|result]; simpl; [done|].
  destruct (truthy _); simpl; [|done]. by destruct (locs _).
Qed.

Lemma fetchUrlsFromSitemap_ops env (P : forall X, Op X -> Prop) s country :
  (forall u cfg, P _ (AxiosGet u cfg)) -> (forall xml, P _ (ParseString xml)) ->
  ops_all P (fetchUrlsFromSitemap env s country).
Proof.
  intros Hget Hparse.
  unfold fetchUrlsFromSitemap, fetchWithProxy, try_catch, bindE, ok.
  destruct (buildAxiosCfg env country (Some 15000)) as [e0|cfg]; [done|]. simpl.
  split; [done|]. intros [e|res]; simpl; [done|].
  split; [done|]. intros [e|result]; simpl; [done|].
  destruct (truthy _); simpl; [|done]. by destruct (locs _).
Qed.

Lemma resolve_ops env (P : forall X, Op X -> Prop) domain country :
  (forall u cfg, P _ (AxiosGet u cfg)) -> (forall xml, P _ (ParseString xml)) ->
  P _ Pick ->
  ops_all P (resolve env domain country).
Proof.
  intros Hget Hparse Hpick. unfold resolve.
  apply ops_all_bindE; [by apply fetchIndexSitemaps_ops|]. intros sitemapList.
  apply ops_all_bindE; [|done].
  apply ops_all_Promise_all; [done|]. apply List.Forall_forall. intros t Hin.
  apply in_map_iff in Hin as [s [<- _]]. by apply fetchUrlsFromSitemap_ops.
Qed.

Lemma emitted_bindE_l {A B} w Q (t : Task (Thrown + A))
    (f : A -> Task (Thrown + B)) st :
  Exists Q (emitted w t st) -> Exists Q (emitted w (bindE t f) st).
Proof. intros H. unfold bindE. rewrite emitted_bind. apply Exists_app. by left. Qed.

(** The pipeline of a domain up to the summary row. *)
Lemma run_domain_task env w st country domain :
  let final := (run w (domain_task env (country, domain)) st).2 in
  exists urls,
    (run w (resolve env domain country) st).1 = inr urls /\
    exists row rest,
      rows (logger final) = rows (logger st) ++ row :: rest /\
      js_get row COUNTRY = JStr country /\
      js_get row MESSAGE = JStr (found_message (length urls) country) /\
      match urls with
      | [] => rest = []
      | _ :: _ => True
      end.
Proof.
  cbn zeta. unfold domain_task. cbn [fst snd]. rewrite run_bindE.
  destruct (run_leaves_all w _ _ st (resolve_ok env domain country)) as [urls Hurls].
  pose proof (run_keeps_logger w (resolve env domain country) st) as Hlog.
  exists urls. split; [done|]. rewrite Hurls. cbn [bind act run].
  match goal with |- context [run w (warmUrls env urls country 1 2000) ?s] =>
    destruct (run_logs w _ (warmUrls env urls country 1 2000) s
                (warm_batches_logs env country _ 2000)) as (rest & Hrest & _);
    assert (urls = [] -> run w (warmUrls env urls country 1 2000) s = (inr tt, s))
      as Hnil by (by intros ->)
  end.
  rewrite Hrest. cbn [perform snd logger op_logger log rows].
  rewrite Hlog by (apply resolve_ops; intros; exact I).
  rewrite <- app_assoc. eexists _, rest. split; [reflexivity|].
  split; [reflexivity|]. split; [reflexivity|].
  destruct urls as [|u urls]; [|done].
  rewrite Hnil in Hrest by done. cbn [perform snd logger op_logger log rows] in Hrest.
  rewrite <- (app_nil_r (_ ++ [_])) in Hrest at 1.
  by apply app_inv_head in Hrest.
Qed.

Example found_message_0 country :
  found_message 0 country = "Found 0 URLs for " +:+ country.
Proof. reflexivity. Qed.

(** A domain whose index cannot be fetched: one row, "Found 0 URLs". *)
Example unreachable_index_logs_found_0 :
  let final :=
    (run Sample.always_timeout
       (domain_task Sample.env_all ("id", "https://divemasterlembongan.com"))
       Sample.state0) in
  final.1 = inr tt /\
  List.map (fun r => js_get r MESSAGE) (rows (logger final.2))
    = [JStr "Found 0 URLs for id"].
Proof. vm_compute. done. Qed.


(** ** The whole script on a sample site *)

(** One index, one child sitemap listing the home page twice, every page
    a LiteSpeed hit: three rows stamped with the same finish time, two
    pauses, no purge and the one POST of [flush]. *)
Example main_on_sample_site :
  let final := run Site.site (main Sample.env_all) Sample.state0 in
  final.1 = inr tt /\
  List.map (fun r => (js_get r FINISHED, js_get r COUNTRY, js_get r MESSAGE))
           (rows (logger final.2))
  = [ (JStr "1970-01-01T00:00:24.000Z", JStr "id", JStr "Found 2 URLs for id");
      (JStr "1970-01-01T00:00:24.000Z", JStr "SIN", JStr "");
      (JStr "1970-01-01T00:00:24.000Z", JStr "SIN", JStr "") ] /\
  count (is_sleep InterBatch) (trace final.2) = 2%nat /\
  count is_purge_call (trace final.2) = 0%nat /\
  count is_post (trace final.2) = 1%nat.
Proof. vm_compute. done. Qed.

(** * The script as a whole *)

(** ** [purgeCloudflareCache] *)


(** ** A single task under [Promise.all] *)

Lemma run_par_Ret_r {A B} w (t : Task A) (b : B) st :
  run w (par t (Ret b)) st = ((run w t st).1, b, (run w t st).2).
Proof.
  revert st. induction t as [a | X op k IH]; intros st; [done|].
  rewrite par_Act_Ret. simpl. apply IH.
Qed.

Lemma run_Promise_all_one {A} w (t : Task (Thrown + A)) st :
  run w (Promise_all [t]) st =
  (match (run w t st).1 with
   | inl e => inl e
   | inr a => inr [a]
   end, (run w t st).2).
Proof.
  unfold Promise_all. cbn [all_settled]. rewrite !run_bind, run_par_Ret_r.
  simpl. by destruct (run w t st).1.
Qed.

Lemma emitted_Promise_all_one {A} w (t : Task (Thrown + A)) st :
  emitted w (Promise_all [t]) st = emitted w t st.
Proof. unfold emitted. by rewrite run_Promise_all_one. Qed.

(** ** The course of [main] *)

Lemma run_main env w st :
  let fin := main_finished env w st in
  let flushed := (run w (flush env) fin).2 in
  run w (main env) st =
  (inr tt,
   (perform w (Console LLog "[CacheWarmer] Finished")
      (perform w DateNow flushed).2).2).
Proof.
  cbn zeta.
  unfold main, main_finished, main_body, main_started, main_prefix,
    new_AppsScriptLogger.
  cbn [bind act run DOMAINS_MAP List.map]. rewrite run_bindE.
  unfold try_finally. rewrite run_bind, run_Promise_all_one.
  assert (forall s, (run w (domain_task env
                              ("id", "https://divemasterlembongan.com")) s).1
                    = inr tt) as Hd.
  { intros s. apply (run_leaves_all w (fun r => r = inr tt)), domain_task_ok. }
  assert (forall s, (run w (flush env) s).1 = inr tt) as Hf.
  { intros s. apply (run_leaves_all w (fun r => r = inr tt)), flush_ok. }
  cbn [fst snd]. rewrite Hd. rewrite run_bind. rewrite run_bindE.
  rewrite (run_setFinished w). cbn [fst snd]. rewrite Hf. cbn [run fst snd bind act].
  reflexivity.
Qed.

Lemma main_started_spec w st :
  rows (logger (main_started w st)) = [] /\
  finishedAt (logger (main_started w st)) = JNull /\
  trace (main_started w st)
    = trace st ++ [EvConsole LLog "[CacheWarmer] Started"].
Proof.
  unfold main_started, main_prefix, new_AppsScriptLogger. simpl.
  by rewrite !app_nil_r.
Qed.

Lemma emitted_flush env w st :
  emitted w (flush env) st =
  if negb (env_truthy (APPS_SCRIPT_URL env))
     || (length (rows (logger st)) =? 0)%nat
  then []
  else
    let r := http_post w (S (tick st)) (flush_url env)
               (flush_body (logger st)) flush_cfg in
    EvPost (flush_url env) (flush_body (logger st)) flush_cfg r ::
    match r with
    | inl _ => [EvConsole LWarn "Apps Script logging error:"]
    | inr _ => []
    end.
Proof.
  unfold flush, try_catch, bindE, ok. cbn [bind act]. rewrite emitted_Act.
  cbn [op_events answer app].
  destruct (negb (env_truthy (APPS_SCRIPT_URL env))
            || (length (rows (logger st)) =? 0)%nat); [apply emitted_Ret|].
  cbn [bind]. rewrite emitted_Act. cbn [op_events answer perform snd tick logger op_logger].
  unfold flush_url, flush_body, flush_cfg. cbn zeta. f_equal.
  destruct (http_post w (S (tick st)) _ _ _) as [e|res]; cbn [bind].
  - rewrite emitted_Act. cbn [op_events]. by rewrite emitted_Ret.
  - by rewrite emitted_Ret.
Qed.

Lemma flush_keeps_logger env w st :
  logger (run w (flush env) st).2 = logger st.
Proof.
  apply run_keeps_logger. unfold flush, try_catch, bindE, ok. simpl.
  split; [done|]. intros this. destruct (_ || _); simpl; [done|].
  split; [done|]. intros [e|res]; simpl; done.
Qed.

(** The trace of [main]: the start message, the pipeline of the domain,
    [flush] and the end message. *)
Lemma emitted_main env w st :
  emitted w (main env) st =
  EvConsole LLog "[CacheWarmer] Started" ::
  emitted w (domain_task env ("id", "https://divemasterlembongan.com"))
    (main_started w st) ++
  emitted w (flush env) (main_finished env w st) ++
  [EvConsole LLog "[CacheWarmer] Finished"].
Proof.
  unfold emitted at 1. rewrite run_main. cbn zeta. cbn [snd].
  rewrite !trace_perform. cbn [op_events]. rewrite trace_run.
  unfold main_finished. rewrite run_setFinished. cbn [snd trace].
  unfold main_body. rewrite trace_run.
  destruct (main_started_spec w st) as (_ & _ & ->).
  rewrite !app_nil_r, <- !app_assoc, drop_app_length. reflexivity.
Qed.

Lemma logger_main env w st :
  logger (run w (main env) st).2 = logger (main_finished env w st).
Proof.
  rewrite run_main. cbn zeta. cbn [snd]. unfold perform. cbn [snd logger].
  apply flush_keeps_logger.
Qed.

Lemma ops_all_impl {A} (P Q : forall X, Op X -> Prop) (t : Task A) :
  (forall X (op : Op X), P X op -> Q X op) -> ops_all P t -> ops_all Q t.
Proof.
  intros HPQ. induction t as [a | X op k IH]; simpl; [done|].
  intros [Hop Hk]. split; [by apply HPQ | intros x; by apply IH].
Qed.

(** ** The operations of the pipeline of a domain *)

Lemma fetchWithProxy_alphabet env country u :
  ops_all (domain_op env country) (fetchWithProxy env u country 15000).
Proof.
  unfold fetchWithProxy, bindE, ok.
  destruct (buildAxiosCfg env country (Some 15000)) as [e0|cfg] eqn:Hcfg;
    [done|].
  simpl. split; [exact Hcfg|]. by intros [e|res].
Qed.

Lemma resolve_alphabet env domain country :
  ops_all (domain_op env country) (resolve env domain country).
Proof.
  assert (forall (field item : string) u,
    ops_all (domain_op env country)
      (try_catch
         (xml <-! fetchWithProxy env u country 15000 ;;
          result <-! act (ParseString xml) ;;
          let items := opt_prop (opt_prop result field) item in
          if negb (truthy items) then ok [] else Ret (locs items))
         (fun _ => ok []))) as Hfetch.
  { intros field item u. apply ops_all_try_catch; [|done].
    apply ops_all_bindE; [apply fetchWithProxy_alphabet|]. intros xml.
    apply ops_all_bindE; [done|]. intros result. cbn zeta.
    by destruct (negb _). }
  unfold resolve.
  apply ops_all_bindE; [apply Hfetch|]. intros sitemapList.
  apply ops_all_bindE; [|done].
  apply ops_all_Promise_all; [done|]. apply List.Forall_forall. intros t Hin.
  apply in_map_iff in Hin as [s [<- _]]. apply Hfetch.
Qed.

Lemma purgeCloudflareCache_alphabet env country u :
  ops_all (domain_op env country) (purgeCloudflareCache env u).
Proof.
  unfold purgeCloudflareCache. cbn [bind act ops_all]. split; [done|]. intros _.
  destruct (negb (env_truthy (CLOUDFLARE_ZONE_ID env))
            || negb (env_truthy (CLOUDFLARE_API_TOKEN env))) eqn:Hoff; [done|].
  apply ops_all_try_catch.
  - apply ops_all_bindE.
    + simpl. split; [|done]. split.
      { unfold purge_enabled. apply orb_false_iff in Hoff as [H1 H2].
        apply negb_false_iff in H1, H2. by rewrite H1, H2. }
      split; [reflexivity|]. split; [reflexivity|]. by exists u.
    + intros res.
      destruct (negb (truthy (opt_prop (res_data res) "success"))); simpl; [|done].
      split; [done|]. done.
  - intros e. simpl. split; [done|]. done.
Qed.

Lemma warm_get_alphabet env country u :
  ops_all (domain_op env country) (warm_get env country u).
Proof.
  unfold warm_get.
  destruct (buildAxiosCfg env country (Some 15000)) as [e0|cfg] eqn:Hcfg;
    [done|].
  by apply retry_loop_ops.
Qed.

Lemma warm_one_alphabet env country u :
  ops_all (domain_op env country) (warm_one env country u).
Proof.
  unfold warm_one. cbn [bind act ops_all]. split; [done|]. intros t0.
  apply ops_all_try_catch.
  - apply ops_all_bindE; [apply warm_get_alphabet|].
    intros res. cbn [bind act ops_all]. split; [done|]. intros t1.
    split; [done|]. intros _. split; [by eexists|].
    intros _. destruct (not_hit _); [|done]. apply purgeCloudflareCache_alphabet.
  - intros err. cbn [bind act ops_all]. split; [done|]. intros t1.
    split; [done|]. intros _. split; [by eexists|done].
Qed.

Lemma warm_batches_alphabet env country bs :
  ops_all (domain_op env country) (warm_batches env country bs 2000).
Proof.
  induction bs as [|b bs IH]; [done|]. cbn [warm_batches].
  apply ops_all_bindE.
  - apply ops_all_Promise_all; [done|]. apply List.Forall_forall. intros t Hin.
    apply in_map_iff in Hin as [u [<- _]]. apply warm_one_alphabet.
  - intros _. cbn [bind act ops_all]. split; [done|]. intros _. exact IH.
Qed.

Lemma domain_task_alphabet env country domain :
  ops_all (domain_op env country) (domain_task env (country, domain)).
Proof.
  unfold domain_task. cbn [fst snd].
  apply ops_all_bindE; [apply resolve_alphabet|]. intros urls.
  cbn [bind act ops_all]. split; [done|]. intros _. split; [by eexists|].
  intros _. apply warm_batches_alphabet.
Qed.

(** ** The whole run *)

Lemma run_rows_stamped {A} w (t : Task A) st :
  ops_all (logs (fun _ => True)) t ->
  rows_stamped (logger st) -> rows_stamped (logger (run w t st).2).
Proof.
  intros Hops Hst.
  apply (run_ops_all w (logs (fun _ => True))
           (fun s => rows_stamped (logger s)) t st); [|done..].
  intros X op s Hop Hs. destruct op; try done.
  destruct Hop as (a & _ & ->). simpl. unfold rows_stamped in *. simpl.
  apply Forall_app. split; [done|]. by repeat constructor.
Qed.

Lemma domain_task_logs env country domain :
  ops_all (logs (fun _ => True)) (domain_task env (country, domain)).
Proof.
  eapply ops_all_impl; [|apply domain_task_alphabet].
  intros X op Hop. destruct op; try done. destruct Hop as [a ->]. by exists a.
Qed.

(** The logger [main] hands to [flush]. *)
Lemma main_finished_logger env w st :
  let body := (main_body env w st).2 in
  logger (main_finished env w st)
  = setFinished_at (clock w (tick body)) (logger body).
Proof. cbn zeta. unfold main_finished. by rewrite run_setFinished. Qed.

Lemma main_body_rows env w st :
  rows_stamped (logger (main_body env w st).2) /\
  exists (urls : list Js) row rest,
    rows (logger (main_body env w st).2) = row :: rest /\
    js_get row COUNTRY = JStr "id" /\
    js_get row MESSAGE = JStr (found_message (length urls) "id").
Proof.
  unfold main_body. split.
  - apply run_rows_stamped; [apply domain_task_logs|].
    unfold rows_stamped. destruct (main_started_spec w st) as (-> & _). constructor.
  - destruct (run_domain_task env w (main_started w st) "id"
                "https://divemasterlembongan.com")
      as (urls & _ & row & rest & Hrows & Hc & Hm & _).
    destruct (main_started_spec w st) as (Hnil & _). rewrite Hnil in Hrows.
    by exists urls, row, rest.
Qed.

(** X2: the log of a run.  When [main] ends, the logger holds at least one
    row; every row has twelve cells and carries the run identifier, the
    start time and the finish time of the logger, the finish time being a
    non-empty string; and the first row is the summary row of the domain,
    with the country [id] and the number of URLs found. *)
Theorem main_log_is_stamped env w st :
  let final := logger (run w (main env) st).2 in
  exists fin (urls : list Js) row rest,
    fin <> "" /\ finishedAt final = JStr fin /\
    rows final = row :: rest /\
    js_get row COUNTRY = JStr "id" /\
    js_get row MESSAGE = JStr (found_message (length urls) "id") /\
    Forall (fun r => length r = 12%nat /\
                     js_get r RUN_ID = JStr (runId final) /\
                     js_get r STARTED = JStr (startedAt final) /\
                     js_get r FINISHED = JStr fin)
           (rows final).
Proof.
  cbn zeta. rewrite logger_main, main_finished_logger. cbn zeta.
  destruct (main_body_rows env w st) as (Hst & urls & row & rest & Hrows & Hc & Hm).
  set (body := (main_body env w st).2) in *.
  exists (toISOString (clock w (tick body))), urls.
  exists (js_set_index row FINISHED (JStr (toISOString (clock w (tick body))))).
  exists (List.map (fun r => js_set_index r FINISHED
                      (JStr (toISOString (clock w (tick body))))) rest).
  split; [apply toISOString_nonempty|]. split; [reflexivity|].
  split; [simpl; by rewrite Hrows|].
  split; [by rewrite js_get_set_index_ne|].
  split; [by rewrite js_get_set_index_ne|].
  simpl. unfold rows_stamped in Hst. clear Hrows Hc Hm.
  induction Hst as [|r rs (Hlen & Hid & Hstart) _ IH]; simpl; constructor; [|exact IH].
  split; [rewrite length_set_index, Hlen; unfold FINISHED; lia|].
  split; [by rewrite js_get_set_index_ne|].
  split; [by rewrite js_get_set_index_ne|].
  apply js_get_set_index_eq.
Qed.

Lemma domain_op_event env (X : Type) (op : Op X) :
  domain_op env "id" X op ->
  emits (fun ev => script_event env ev /\ is_sink_post ev = false) X op.
Proof.
  intros Hop x. destruct op; simpl in *; try done.
  - by repeat constructor.
  - constructor; [|constructor]. split; [by left|].
    destruct Hop as (_ & _ & -> & _). reflexivity.
  - by repeat constructor.
  - by repeat constructor.
  - by repeat constructor.
Qed.


(** X4: what a run asks of the network.  Every GET of [main] is made with
    the configuration of the country [id] and a timeout of 15 s; every
    POST is either the purge of one URL, sent to the purge address of the
    zone with the bearer token and only when both CDN credentials are set,
    or the post of the log to the sink, only when its URL is set; and
    every wait lasts 2000 ms. *)
Theorem main_network_footprint env w st :
  Forall (script_event env) (emitted w (main env) st).
Proof.
  rewrite emitted_main. constructor; [done|].
  apply Forall_app. split.
  { eapply List.Forall_impl;
      [|apply (emitted_ops_all (A := Thrown + unit) w
                 (fun ev => script_event env ev /\ is_sink_post ev = false));
        eapply ops_all_impl; [apply domain_op_event | apply domain_task_alphabet]].
    by intros ev [H _]. }
  apply Forall_app. split; [|by repeat constructor].
  rewrite emitted_flush.
  destruct (env_truthy (APPS_SCRIPT_URL env)) eqn:Hurl; simpl; [|constructor].
  destruct (_ =? _)%nat; [constructor|]. cbn zeta.
  constructor.
  - right. split; [done|]. split; [done|]. split; [done|]. by eexists.
  - destruct (http_post _ _ _ _ _); by repeat constructor.
Qed.

(** ** What [warmUrls] spends on a list of URLs *)


















(** ** Batches of one URL *)







(** ** Sitemaps *)

Lemma map_loc_spec xs :
  map_loc xs =
  if forallb readable xs then inr (List.map (fun e => opt_prop e "loc") xs)
  else inl TypeError.
Proof.
  induction xs as [|e xs IH]; [done|]. cbn [map_loc forallb List.map].
  rewrite IH. destruct e; simpl; try done; by destruct (forallb readable xs).
Qed.

(** X8: the locations of a sitemap.  The entries, one array or a single
    value standing for an array of one, are read in order: when each can
    have its properties read, the result is their [loc] values but those
    JavaScript takes for false, in the order of the entries; a single
    [null] or [undefined] entry makes the reading throw, so that the
    function that called it returns no location at all. *)
Theorem locs_reads_entries_in_order w root child res items :
  let es := as_array items in
  let read := filter_Boolean (List.map (fun e => opt_prop e "loc") es) in
  locs items = (if forallb readable es then inr read else inl TypeError) /\
  listed_locs w root child (inr res) =
    match parse_xml w (res_data res) with
    | inl _ => []
    | inr result =>
        let items := opt_prop (opt_prop result root) child in
        if truthy items && forallb readable (as_array items)
        then filter_Boolean
               (List.map (fun e => opt_prop e "loc") (as_array items))
        else []
    end.
Proof.
  assert (forall items,
            locs items =
            if forallb readable (as_array items)
            then inr (filter_Boolean
                        (List.map (fun e => opt_prop e "loc") (as_array items)))
            else inl TypeError) as Hlocs.
  { intros v. unfold locs. rewrite map_loc_spec. by destruct (forallb _ _). }
  cbn zeta. split; [apply Hlocs|]. unfold listed_locs.
  destruct (parse_xml w (res_data res)) as [e|result]; [done|].
  cbn zeta. rewrite Hlocs.
  destruct (truthy _); [|done]. by destruct (forallb _ _).
Qed.

(** *** What the code reads and what a sitemap lists *)







(** *** The events of all the paths of a task *)

Section PathsEvents.

Context (C : forall X, Op X -> X -> Prop).








End PathsEvents.



(** *** The requests of the sitemap functions *)






(** *** The resolution *)





(** A child that cannot be fetched beside one that can: the URLs of the
    second are all there. *)
Example failing_child_is_skipped :
  let w := Site.two_children in
  (run w (resolve Sample.env_none Site.base "id") Sample.state0).1
    = inr [Sample.page ""; Sample.page ""] /\
  get_urls (emitted w (resolve Sample.env_none Site.base "id") Sample.state0)
    = [JStr Site.index_url; JStr Site.missing_url; JStr Site.child_url].
Proof. vm_compute. done. Qed.

(** ** The name of the sheet *)

Lemma shift_fields t :
  let local := t + 8 * 3600 * 1000 in
  getUTCHours local = (getUTCHours t + 8) mod 24 /\
  getUTCMinutes local = getUTCMinutes t /\
  getUTCSeconds local = getUTCSeconds t /\
  local / msPerDay = t / msPerDay + (if 16 <=? getUTCHours t then 1 else 0).
Proof.
  cbn zeta. unfold getUTCHours, getUTCMinutes, getUTCSeconds, msPerDay.
  destruct (Z.leb_spec 16 (t mod 86400000 / 3600000)) as [H|H];
    repeat split; Z.div_mod_to_equations; lia.
Qed.

Lemma civil_of_days_range days :
  let '(y, m, d) := civil_of_days days in
  1 <= m <= 12 /\ 1 <= d <= 31.
Proof.
  unfold civil_of_days. cbn zeta.
  set (z := days + 719468).
  set (era := z / 146097).
  set (doe := z - era * 146097).
  assert (0 <= doe < 146097) as Hdoe by (unfold doe, era; Z.div_mod_to_equations; lia).
  clearbody doe. clear z era.
  set (yoe := (doe - doe / 1460 + doe / 36524 - doe / 146096) / 365).
  set (doy := doe - (365 * yoe + yoe / 4 - yoe / 100)).
  assert (0 <= doy <= 365) as Hdoy.
  { unfold doy, yoe. Z.div_mod_to_equations. lia. }
  clearbody doy. clear yoe.
  set (mp := (5 * doy + 2) / 153).
  assert (0 <= mp <= 11) as Hmp by (unfold mp; Z.div_mod_to_equations; lia).
  split.
  - destruct (Z.ltb_spec mp 10); lia.
  - unfold mp. Z.div_mod_to_equations. lia.
Qed.

Lemma all_from_spec fuel lo p :
  all_from fuel lo p = true ->
  forall i, lo <= i < lo + Z.of_nat fuel -> p i = true.
Proof.
  revert lo. induction fuel as [|fuel IH]; intros lo H i Hi; [lia|].
  cbn [all_from] in H. apply andb_true_iff in H as [Hlo Hrest].
  destruct (decide (i = lo)) as [->|Hne]; [done|].
  apply (IH (lo + 1)); [done | lia].
Qed.

Lemma padStart0_2_digits n : 0 <= n <= 99 -> digits 2 (padStart0 2 n) = true.
Proof.
  intros Hn.
  apply (all_from_spec (Z.to_nat 100) 0 (fun n => digits 2 (padStart0 2 n)));
    [vm_compute; reflexivity | lia].
Qed.

Lemma pretty_year_digits y : 1000 <= y <= 9999 -> digits 4 (pretty y) = true.
Proof.
  intros Hy.
  apply (all_from_spec (Z.to_nat 9000) 1000 (fun y => digits 4 (pretty y)));
    [vm_compute; reflexivity | lia].
Qed.

Lemma time_fields_range t :
  0 <= getUTCHours t <= 23 /\ 0 <= getUTCMinutes t <= 59 /\
  0 <= getUTCSeconds t <= 59.
Proof.
  unfold getUTCHours, getUTCMinutes, getUTCSeconds, msPerDay.
  repeat split; Z.div_mod_to_equations; lia.
Qed.

Lemma length_append (s1 s2 : string) :
  String.length (s1 +:+ s2) = (String.length s1 + String.length s2)%nat.
Proof. induction s1 as [|c s1 IH]; simpl; [done|]. by rewrite IH. Qed.

Lemma digits_length k s : digits k s = true -> String.length s = k.
Proof.
  unfold digits. intros H. apply andb_true_iff in H as [H _].
  by apply Nat.eqb_eq in H.
Qed.

(** A date whose year has four digits is well inside the range of
    [Date], and so is the date eight hours before. *)
Lemma year_range_valid x :
  1000 <= getUTCFullYear x <= 9999 ->
  valid_time (x - 8 * 3600 * 1000) = true /\ valid_time x = true.
Proof.
  unfold getUTCFullYear, civil_of_days, msPerDay. cbn zeta. cbn [fst snd].
  set (z := x / 86400000 + 719468).
  set (era := z / 146097).
  set (doe := z - era * 146097).
  assert (0 <= doe < 146097) as Hdoe
    by (unfold doe, era; Z.div_mod_to_equations; lia).
  set (yoe := (doe - doe / 1460 + doe / 36524 - doe / 146096) / 365).
  assert (0 <= yoe <= 399) as Hyoe
    by (unfold yoe; clearbody doe; Z.div_mod_to_equations; lia).
  clearbody yoe.
  match goal with |- context [if ?b then 1 else 0] =>
    assert (0 <= (if b then 1 else 0) <= 1) as Hc by (destruct b; lia);
    generalize dependent (if b then 1 else 0) end.
  intros c Hc Hy.
  assert (2 <= era <= 24) as Hera by lia.
  assert (-500000 <= x / 86400000 <= 3000000) as Hdays
    by (unfold era, z in Hera; Z.div_mod_to_equations; lia).
  unfold valid_time, maxTime.
  split; apply andb_true_iff; split; apply Z.leb_le;
    Z.div_mod_to_equations; lia.
Qed.

(** X10: the name of the sheet is the time of the run in UTC+8.  For a
    date and a date eight hours later that [Date] can hold, its minutes
    and seconds are those of the UTC time, its hour is the UTC hour plus
    eight modulo 24, and its date is the UTC date, or the day after when
    the UTC hour is 16 or more.  Past the range of [Date] every field of
    the name reads [NaN]. *)
Theorem makeSheetNameForRun_is_utc_plus_8 t :
  let carry := if 16 <=? getUTCHours t then 1 else 0 in
  let '(y, m, d) := civil_of_days (t / msPerDay + carry) in
  makeSheetNameForRun t =
    if valid_time t && valid_time (t + 8 * 3600 * 1000)
    then
      pretty y +:+ "-" +:+ padStart0 2 m +:+ "-" +:+ padStart0 2 d +:+ "_" +:+
      padStart0 2 ((getUTCHours t + 8) mod 24) +:+ "-" +:+
      padStart0 2 (getUTCMinutes t) +:+ "-" +:+
      padStart0 2 (getUTCSeconds t) +:+ "_WITA"
    else "NaN-NaN-NaN_NaN-NaN-NaN_WITA".
Proof.
  cbn zeta. destruct (shift_fields t) as (Hh & Hm & Hs & Hd). cbn zeta in *.
  unfold makeSheetNameForRun. cbn zeta. rewrite Hh, Hm, Hs.
  unfold getUTCFullYear, getUTCMonth, getUTCDate. rewrite Hd.
  destruct (civil_of_days _) as [[y m] d]. cbn [fst snd].
  by rewrite Z.sub_add.
Qed.

(** The last moment of [Date] is at 00:00 UTC: eight hours later there is
    no date. *)
Example makeSheetNameForRun_past_the_range :
  makeSheetNameForRun 8640000000000000 = "NaN-NaN-NaN_NaN-NaN-NaN_WITA" /\
  makeSheetNameForRun (8640000000000000 - 8 * 3600 * 1000)
    = "275760-09-13_00-00-00_WITA".
Proof. vm_compute. done. Qed.

(** X11: the shape of the name of the sheet.  When the year of the run in
    UTC+8 has four digits, the name is [YYYY-MM-DD_HH-MM-SS_WITA]: six
    groups of decimal digits of these widths, 24 characters in all. *)
Theorem makeSheetNameForRun_shape t :
  1000 <= getUTCFullYear (t + 8 * 3600 * 1000) <= 9999 ->
  exists Y M D h m s,
    makeSheetNameForRun t =
      Y +:+ "-" +:+ M +:+ "-" +:+ D +:+ "_" +:+ h +:+ "-" +:+ m +:+ "-" +:+
      s +:+ "_WITA" /\
    digits 4 Y = true /\ digits 2 M = true /\ digits 2 D = true /\
    digits 2 h = true /\ digits 2 m = true /\ digits 2 s = true /\
    String.length (makeSheetNameForRun t) = 24%nat.
Proof.
  intros Hy. unfold makeSheetNameForRun. cbn zeta.
  destruct (year_range_valid _ Hy) as [Ht Hlocal].
  replace (t + 8 * 3600 * 1000 - 8 * 3600 * 1000) with t in Ht by lia.
  rewrite Ht, Hlocal. cbn [andb].
  set (local := t + 8 * 3600 * 1000) in *.
  destruct (time_fields_range local) as (Hh & Hm & Hs).
  pose proof (civil_of_days_range (local / msPerDay)) as Hc.
  unfold getUTCFullYear in Hy. unfold getUTCFullYear, getUTCMonth, getUTCDate.
  destruct (civil_of_days (local / msPerDay)) as [[y mo] d]. cbn [fst snd] in *.
  destruct Hc as [Hmo Hd]. rewrite Z.sub_add.
  pose proof (pretty_year_digits y Hy) as HY.
  pose proof (padStart0_2_digits mo ltac:(lia)) as HM.
  pose proof (padStart0_2_digits d ltac:(lia)) as HD.
  pose proof (padStart0_2_digits (getUTCHours local) ltac:(lia)) as Hhh.
  pose proof (padStart0_2_digits (getUTCMinutes local) ltac:(lia)) as Hmm.
  pose proof (padStart0_2_digits (getUTCSeconds local) ltac:(lia)) as Hss.
  eexists _, _, _, _, _, _. split; [reflexivity|].
  repeat (split; [eassumption|]).
  rewrite !length_append.
  rewrite (digits_length _ _ HY), (digits_length _ _ HM), (digits_length _ _ HD),
    (digits_length _ _ Hhh), (digits_length _ _ Hmm), (digits_length _ _ Hss).
  reflexivity.
Qed.

Lemma makeSheetNameForRun_shape_witness :
  exists Y M D h m s,
    makeSheetNameForRun 1700000000000 =
      Y +:+ "-" +:+ M +:+ "-" +:+ D +:+ "_" +:+ h +:+ "-" +:+ m +:+ "-" +:+
      s +:+ "_WITA" /\
    digits 4 Y = true /\ digits 2 M = true /\ digits 2 D = true /\
    digits 2 h = true /\ digits 2 m = true /\ digits 2 s = true /\
    String.length (makeSheetNameForRun 1700000000000) = 24%nat.
Proof.
  apply (makeSheetNameForRun_shape 1700000000000). vm_compute. split; discriminate.
Defined.

(** ** The fields of the logger over a run *)

Lemma run_logs_identity {A} w G (t : Task A) st :
  ops_all (logs G) t ->
  let l := logger (run w t st).2 in
  runId l = runId (logger st) /\ startedAt l = startedAt (logger st) /\
  sheetName l = sheetName (logger st) /\ finishedAt l = finishedAt (logger st).
Proof.
  intros Hops. cbn zeta.
  apply (run_ops_all w (logs G)
           (fun s => runId (logger s) = runId (logger st) /\
                     startedAt (logger s) = startedAt (logger st) /\
                     sheetName (logger s) = sheetName (logger st) /\
                     finishedAt (logger s) = finishedAt (logger st)) t st);
    [|done..].
  intros X op s Hop Hs. destruct op; try done.
  by destruct Hop as (a & _ & ->).
Qed.

(** X12: the identity of a run.  The run identifier, the start time and
    the name of the sheet are fixed when [main] builds the logger, from
    one random identifier and two readings of the clock, the one of the
    sheet name after the one of the start time; nothing in the run changes
    them. *)
Theorem main_logger_identity env w st :
  let final := logger (run w (main env) st).2 in
  let n := tick st in
  runId final = random_id w (n + 2) /\
  startedAt final = toISOString (clock w (n + 3)) /\
  sheetName final = makeSheetNameForRun (clock w (n + 4)).
Proof.
  cbn zeta. rewrite logger_main, main_finished_logger. cbn zeta.
  cbn [setFinished_at runId startedAt sheetName]. unfold main_body.
  destruct (run_logs_identity w _ _ (main_started w st)
              (domain_task_logs env "id" "https://divemasterlembongan.com"))
    as (-> & -> & -> & _).
  unfold main_started, main_prefix, new_AppsScriptLogger. simpl.
  replace (tick st + 2)%nat with (S (S (tick st))) by lia.
  replace (tick st + 3)%nat with (S (S (S (tick st)))) by lia.
  replace (tick st + 4)%nat with (S (S (S (S (tick st))))) by lia.
  done.
Qed.

Lemma row_of_defined a this :
  finishedAt this <> JUndefined -> row_defined (row_of a this).
Proof.
  intros Hfin. split; [reflexivity|]. split; [|split].
  - unfold row_of. repeat constructor; try done.
    all: try (match goal with |- dflt _ ?x <> _ => by destruct x end).
    + by destruct (dflt (JStr "") (responseMs a)).
    + by destruct (truthy _).
  - unfold js_get. simpl. destruct (truthy _); auto.
  - unfold js_get. simpl.
    destruct (dflt (JStr "") (responseMs a)); eauto.
Qed.

Lemma run_rows_defined {A} w G (t : Task A) st :
  ops_all (logs G) t ->
  finishedAt (logger st) <> JUndefined ->
  Forall row_defined (rows (logger st)) ->
  Forall row_defined (rows (logger (run w t st).2)).
Proof.
  intros Hops Hfin Hst.
  cut (finishedAt (logger (run w t st).2) <> JUndefined /\
       Forall row_defined (rows (logger (run w t st).2))); [by intros [_ H]|].
  apply (run_ops_all w (logs G)
           (fun s => finishedAt (logger s) <> JUndefined /\
                     Forall row_defined (rows (logger s))) t st); [|done..].
  intros X op s Hop [Hf Hs]. destruct op; try done.
  destruct Hop as (a & _ & ->). simpl. split; [done|].
  apply Forall_app. split; [done|]. constructor; [|constructor].
  by apply row_of_defined.
Qed.

Lemma set_finish_defined row fin :
  row_defined row -> row_defined (js_set_index row FINISHED (JStr fin)).
Proof.
  intros (Hlen & Hcells & Herr & Hms). split; [|split; [|split]].
  - rewrite length_set_index, Hlen. unfold FINISHED. lia.
  - unfold js_set_index. rewrite decide_True by (rewrite Hlen; unfold FINISHED; lia).
    by apply Forall_insert.
  - by rewrite js_get_set_index_ne.
  - by rewrite js_get_set_index_ne.
Qed.

(** X13: the cells of the log.  Whatever the call of [log] left out, the
    rows [main] has logged when it ends have twelve cells and no cell
    that is [undefined]; the error flag of a row is 0 or 1 and its
    response time a number or the empty string. *)
Theorem main_log_cells_are_defined env w st :
  Forall row_defined (rows (logger (run w (main env) st).2)).
Proof.
  rewrite logger_main, main_finished_logger. cbn zeta.
  cbn [setFinished_at rows].
  assert (Forall row_defined (rows (logger (main_body env w st).2))) as Hbody.
  { unfold main_body. eapply run_rows_defined; [apply domain_task_logs| |].
    - by destruct (main_started_spec w st) as (_ & -> & _).
    - destruct (main_started_spec w st) as (-> & _). constructor. }
  induction Hbody as [|row rs Hrow _ IH]; [constructor|].
  cbn [List.map]. constructor; [by apply set_finish_defined | exact IH].
Qed.

(** ** The configuration of a request *)

Lemma member_spec literal key :
  member literal key =
  match own_property key literal with
  | Some (Some s) => MStr s
  | Some None => MUndefined
  | None => if decide (key ∈ Object_prototype) then MInherited key
            else MUndefined
  end.
Proof.
  unfold member. destruct (own_property key literal) as [[s|]|]; try done.
  destruct (existsb (String.eqb key) Object_prototype) eqn:Hex;
    destruct (decide (key ∈ Object_prototype)) as [Hin|Hout]; try done.
  - exfalso. apply Hout. apply existsb_exists in Hex as (k & Hk & Heq).
    apply String.eqb_eq in Heq. subst k. by apply list_elem_of_In.
  - exfalso. apply not_true_iff_false in Hex. apply Hex.
    apply existsb_exists. exists key. split; [by apply list_elem_of_In|].
    apply String.eqb_refl.
Qed.

(** X14: the configuration of a GET.  [buildAxiosCfg] reads the proxy and
    the user agent of the country: those of the literal for [id], the
    member of [Object.prototype] for a name such as [constructor], and
    [undefined] for any other country.  It calls the constructor of the
    agent exactly when the proxy it read is true, that is for [id] with a
    proxy variable that is set and not empty and for the inherited names,
    and it throws exactly what that constructor throws; otherwise it
    returns a configuration, with the timeout given, 30 s without one, and
    with the agent if one was built. *)
Theorem buildAxiosCfg_by_country env country extra :
  let read (own : option string) :=
    if decide (country = "id")
    then match own with
         | Some s => MStr s
         | None => MUndefined
         end
    else if decide (country ∈ Object_prototype) then MInherited country
         else MUndefined in
  let proxy := read (BRD_PROXY_ID env) in
  let wanted :=
    if decide (country = "id") then env_truthy (BRD_PROXY_ID env)
    else bool_decide (country ∈ Object_prototype) in
  let cfg agent :=
    {| cfg_userAgent := read (Some "DiveMasterLembongan-CacheWarmer-ID/1.0");
       cfg_timeout := default 30000 extra;
       cfg_httpsAgent := agent |} in
  buildAxiosCfg env country extra =
    if wanted
    then match HttpsProxyAgent_throws env proxy with
         | Some e => inl e
         | None => inr (cfg (Some proxy))
         end
    else inr (cfg None).
Proof.
  cbn zeta. unfold buildAxiosCfg. rewrite !member_spec.
  unfold PROXIES, USER_AGENTS. cbn [own_property].
  destruct (decide (country = "id")) as [->|Hne].
  - cbn [String.eqb Ascii.eqb Bool.eqb].
    destruct (BRD_PROXY_ID env) as [p|]; [|done]. cbn [member_truthy env_truthy].
    done.
  - assert (String.eqb "id" country = false) as ->.
    { apply String.eqb_neq. congruence. }
    destruct (decide (country ∈ Object_prototype)) as [Hin|Hout].
    + by rewrite bool_decide_eq_true_2.
    + by rewrite bool_decide_eq_false_2.
Qed.

(** The name of a member of [Object.prototype] taken for a country, in an
    installation whose agent refuses what is not a URL: the constructor is
    called and throws, and the sitemap functions ask for nothing. *)
Example buildAxiosCfg_constructor :
  buildAxiosCfg Sample.env_bad_proxy "constructor" (Some 15000)
    = inl Sample.invalid_url /\
  run Site.site (fetchIndexSitemaps Sample.env_bad_proxy Site.base "constructor")
      Sample.state0
    = (inr [], Sample.state0).
Proof. vm_compute. done. Qed.
